(** * pymatgen.symmetry.pointgroup: a shallow embedding

    The module assigns a point group to a molecule.  Python floats are
    idealised as rationals ([Q]): every comparison, sum and product of the
    source is kept as written, and rounding is left out.  The one division of
    the module whose divisor may be zero, that of the inertia tensor by the
    total inertia, is set apart in [_analyze], where numpy leaves NaN and
    infinite entries on which the eigen-decomposition raises.  Functions of
    numpy, scipy and of pymatgen modules other than [pointgroup.py] that need
    square roots, trigonometry or an eigen-decomposition are collaborators
    (record [Collaborators]); exceptions are values of [result].

    The constructor of [ExpEntry] (pymatgen.entries.exp_entries) is embedded
    after the analyzer; it only compares floats, and its floats keep the
    infinities and NaN. *)

From Stdlib Require Import QArith Qabs List Bool Arith Lia String.
From Stdlib Require Import Lqa Sorted.
From Equations Require Import Equations.
Import ListNotations.

Local Open Scope Q_scope.

(** ** Numbers, vectors, arrays *)

Definition Qltb (a b : Q) : bool := negb (Qle_bool b a).
Definition Qgtb (a b : Q) : bool := Qltb b a.

Definition vec := (Q * Q * Q)%type.

Definition vadd (u v : vec) : vec :=
  let '(a, b, c) := u in let '(x, y, z) := v in (a + x, b + y, c + z).

Definition vsub (u v : vec) : vec :=
  let '(a, b, c) := u in let '(x, y, z) := v in (a - x, b - y, c - z).

(** [np.dot] on two vectors. *)
Definition dot (u v : vec) : Q :=
  let '(a, b, c) := u in let '(x, y, z) := v in a * x + b * y + c * z.

(** [np.cross]. *)
Definition cross (u v : vec) : vec :=
  let '(a, b, c) := u in let '(x, y, z) := v in
  (b * z - c * y, c * x - a * z, a * y - b * x).

(** A two-dimensional numpy array, row by row. *)
Definition matrix := list (list Q).

Fixpoint Qsum (l : list Q) : Q :=
  match l with
  | [] => 0
  | x :: r => x + Qsum r
  end.

Fixpoint zip_with {A B C} (f : A -> B -> C) (l : list A) (m : list B) : list C :=
  match l, m with
  | x :: l', y :: m' => f x y :: zip_with f l' m'
  | _, _ => []
  end.

Definition column (j : nat) (m : matrix) : list Q := map (fun row => nth j row 0) m.

Definition columns (m : matrix) : list (list Q) :=
  map (fun j => column j m) (seq 0 (List.length (hd [] m))).

(** [np.dot] on two 2-D arrays: the matrix product. *)
Definition np_dot (a b : matrix) : matrix :=
  map (fun row => map (fun col => Qsum (zip_with Qmult row col)) (columns b)) a.

(** [np.eye]. *)
Definition np_eye (n : nat) : matrix :=
  map (fun i => map (fun j => if Nat.eqb i j then 1 else 0) (seq 0 n)) (seq 0 n).

Fixpoint all2 {A B} (f : A -> B -> bool) (l : list A) (m : list B) : bool :=
  match l, m with
  | [], [] => true
  | x :: l', y :: m' => f x y && all2 f l' m'
  | _, _ => false
  end.

(** numpy's default relative tolerance of [allclose]. *)
Definition rtol : Q := 1 # 100000.

(** [np.allclose(a, b, atol=atol)]: everywhere |a - b| <= atol + rtol * |b|.
    Arrays of different shapes (never compared by this module, whose arrays
    are all 4 x 4) compare as not close. *)
Definition allclose (a b : matrix) (atol : Q) : bool :=
  all2 (all2 (fun x y => Qle_bool (Qabs (x - y)) (atol + rtol * Qabs y))) a b.

(** ** Symmetry operations *)

(** [SymmOp]: an affine 4 x 4 matrix over homogeneous coordinates. *)
Record SymmOp : Type := mkSymmOp { affine_matrix : matrix }.

(** [identity_op = SymmOp(np.eye(4))]. *)
Definition identity_op : SymmOp := mkSymmOp (np_eye 4).

(** ** generate_full_symmops *)

(** The nested function [in_set] of [generate_full_symmops]. *)
Definition in_set (tol : Q) (op_set : list SymmOp) (mat : matrix) : bool :=
  existsb (fun o => allclose (affine_matrix o) mat tol) op_set.

Definition compose (p : SymmOp * SymmOp) : matrix :=
  np_dot (affine_matrix (fst p)) (affine_matrix (snd p)).

(** One pass over [itertools.product(symmops, symmops)]: the pair
    [(new_set, complete)] the loop leaves behind.  The first product with no
    match in [symmops] is appended and ends the pass. *)
Definition scan (symmops : list SymmOp) (tol : Q) : list SymmOp * bool :=
  match find (fun p => negb (in_set tol symmops (compose p)))
             (list_prod symmops symmops) with
  | Some p => (symmops ++ [mkSymmOp (compose p)], false)
  | None => (symmops, true)
  end.

(** A value together with the equation that names it, for the branches of the
    definition below to remember which test they passed. *)
Definition inspect {A} (a : A) : {b : A | a = b} := exist _ a eq_refl.

(** How many operations a list may still gain before it passes the ceiling
    of 200: the measure of the recursion below. *)
Definition room (symmops : list SymmOp) : nat := 201 - List.length symmops.
Arguments room : simpl never.

(** [generate_full_symmops(symmops, tol)].  The recursion of the source is on
    the grown list; it is well founded because a call recurses only on a list
    one longer and of at most 200 operations. *)
Equations? generate_full_symmops (symmops : list SymmOp) (tol : Q) : list SymmOp
  by wf (room symmops) lt :=
  generate_full_symmops symmops tol with inspect (scan symmops tol) => {
    | exist _ (new_set, complete) e with inspect (200 <? List.length new_set)%nat => {
      | exist _ true _ := new_set ;
      | exist _ false e' with complete => {
        | false := generate_full_symmops new_set tol ;
        | true := new_set } } }.
Proof.
  apply Nat.ltb_ge in e'. unfold room.
  unfold scan in e. destruct (find _ _); inversion e; subst.
  rewrite length_app in *. cbn [List.length] in *. lia.
Qed.

(** [PointGroup(sch_symbol, operations, tol)]: the symbol and the list the
    closure of the operations yields. *)
Record PointGroup : Type := mkPointGroup {
  pg_sch_symbol : string;
  pg_operations : list SymmOp }.

Definition PointGroup_init (sch_symbol : string) (operations : list SymmOp) (tol : Q)
  : PointGroup :=
  mkPointGroup sch_symbol (generate_full_symmops operations tol).

(** ** Exceptions *)

Inductive exn : Type :=
| UnboundLocalError (name : string)
| ValueError (msg : string)
| RuntimeError (msg : string)
| IndexError
| AttributeError (name : string)
| TypeError (msg : string)
| LinAlgError (msg : string).

Inductive result (A : Type) : Type :=
| Ok (a : A)
| Raise (e : exn).
Arguments Ok {A} a.
Arguments Raise {A} e.

(** ** Molecules *)

(** Of a species this module uses its identity ([==]) and its atomic mass; the
    periodic table itself is not part of the module. *)
Record Specie : Type := mkSpecie { symbol : string; atomic_mass : Q }.

Definition specie_eqb (a b : Specie) : bool := String.eqb (symbol a) (symbol b).

Record Site : Type := mkSite { coords : vec; specie : Specie }.

(** A site of a molecule holds one species: [species_and_occu] of two sites
    are equal when their species are. *)
Definition species_and_occu_eqb (s t : Site) : bool := specie_eqb (specie s) (specie t).

Definition Molecule := list Site.

(** [mol.cart_coords]. *)
Definition cart_coords (mol : Molecule) : list vec := map coords mol.

(** ** Collaborators

    What the module calls and does not define: numpy's norm and eigen
    decomposition, scipy's flat clustering (which raises on some inputs, on
    fewer than two observations for one), the constructors of [SymmOp] that
    need trigonometry, the centring of a molecule and the sort order of
    species. *)
Record Collaborators : Type := {
  norm : vec -> Q;
  eig : matrix -> vec * (vec * vec * vec);
  fclusterdata : list (list Q) -> Q -> result (list nat);
  inversion_op : SymmOp;
  reflection : vec -> SymmOp;
  from_origin_axis_angle : vec -> vec -> Q -> SymmOp;
  rotoreflection : vec -> Q -> SymmOp;
  get_centered_molecule : Molecule -> Molecule;
  specie_ltb : Specie -> Specie -> bool }.

(** Modelled from the spec: [SymmOp.operate] (pymatgen.core.operations is not
    among the sources), the application of the affine transform to a point,
    over homogeneous coordinates. *)
Definition operate (op : SymmOp) (p : vec) : vec :=
  let '(x, y, z) := p in
  match map (fun row => Qsum (zip_with Qmult row [x; y; z; 1])) (affine_matrix op) with
  | a :: b :: c :: _ => (a, b, c)
  | _ => (0, 0, 0)
  end.

Definition within (atol : Q) (u v : vec) : bool :=
  let '(a, b, c) := vsub u v in
  Qltb (Qabs a) atol && Qltb (Qabs b) atol && Qltb (Qabs c) atol.

Fixpoint indices_from {A} (i : nat) (p : A -> bool) (l : list A) : list nat :=
  match l with
  | [] => []
  | x :: r => if p x then i :: indices_from (S i) p r else indices_from (S i) p r
  end.

(** Modelled from the spec: [find_in_coord_list] (pymatgen.util.coord_utils is
    not among the sources), the indices of the coordinates of the list that
    match [coord] within the absolute coordinate tolerance. *)
Definition find_in_coord_list (coord_list : list vec) (coord : vec) (atol : Q) : list nat :=
  indices_from 0 (fun c => within atol c coord) coord_list.

(** ** is_valid_op *)

(** The test of the loop body of [is_valid_op] on one site. *)
Definition maps_to_equivalent (symmop : SymmOp) (mol : Molecule) (tol : Q) (site : Site) : bool :=
  let coord := operate symmop (coords site) in
  match find_in_coord_list (cart_coords mol) coord tol with
  | [i] => match nth_error mol i with
           | Some s => species_and_occu_eqb s site
           | None => false
           end
  | _ => false
  end.

(** [is_valid_op(symmop, mol, tol)]: the loop returns False at the first site
    that fails the test. *)
Definition is_valid_op (symmop : SymmOp) (mol : Molecule) (tol : Q) : bool :=
  forallb (maps_to_equivalent symmop mol tol) mol.

(** ** Dictionaries

    A Python dict as an association list in insertion order; the order in
    which the source iterates over a dict is not fixed by the language, and no
    theorem below depends on it. *)
Section Dict.
Context {K V : Type} (eqb : K -> K -> bool).

Fixpoint dict_get (d : list (K * V)) (k : K) : option V :=
  match d with
  | [] => None
  | (k', v) :: r => if eqb k' k then Some v else dict_get r k
  end.

(** [d[k] = v]. *)
Fixpoint dict_set (d : list (K * V)) (k : K) (v : V) : list (K * V) :=
  match d with
  | [] => [(k, v)]
  | (k', v') :: r => if eqb k' k then (k', v) :: r else (k', v') :: dict_set r k v
  end.
End Dict.

(** [d[k].append(x)] on a [defaultdict(list)]. *)
Fixpoint dict_append {K V : Type} (eqb : K -> K -> bool) (d : list (K * list V)) (k : K) (x : V)
  : list (K * list V) :=
  match d with
  | [] => [(k, [x])]
  | (k', l) :: r => if eqb k' k then (k', l ++ [x]) :: r else (k', l) :: dict_append eqb r k x
  end.

(** [np.mean] of a 2-D array: the mean of all its entries. *)
Definition np_mean (a : list (list Q)) : Q :=
  Qsum (List.concat a) / inject_Z (Z.of_nat (List.length (List.concat a))).

(** [sorted(l, key=...)]: a stable sort that compares with [<] only. *)
Fixpoint insert_sorted {A} (ltb : A -> A -> bool) (x : A) (l : list A) : list A :=
  match l with
  | [] => [x]
  | y :: r => if ltb x y then x :: y :: r else y :: insert_sorted ltb x r
  end.

Definition sorted {A} (ltb : A -> A -> bool) (l : list A) : list A :=
  fold_left (fun acc x => insert_sorted ltb x acc) l [].

(** [itertools.groupby(l, key=...)]: the runs of consecutive equal keys. *)
Fixpoint groupby {A K} (eqb : K -> K -> bool) (key : A -> K) (l : list A) : list (K * list A) :=
  match l with
  | [] => []
  | x :: r =>
      match groupby eqb key r with
      | (k, g) :: gs => if eqb (key x) k then (k, x :: g) :: gs
                        else (key x, [x]) :: (k, g) :: gs
      | [] => [(key x, [x])]
      end
  end.

(** [itertools.combinations(l, 2)] and [itertools.combinations(l, 3)]. *)
Fixpoint combinations2 {A} (l : list A) : list (A * A) :=
  match l with
  | [] => []
  | x :: r => map (pair x) r ++ combinations2 r
  end.

Fixpoint combinations3 {A} (l : list A) : list (A * A * A) :=
  match l with
  | [] => []
  | x :: r => map (fun p => (x, fst p, snd p)) (combinations2 r) ++ combinations3 r
  end.

(** [max(l, key=...)] and [min(l, key=...)]: the first element of the largest
    (smallest) key, no element for an empty list (Python raises ValueError). *)
Fixpoint max_by {A} (key : A -> nat) (l : list A) : option A :=
  match l with
  | [] => None
  | x :: r => match max_by key r with
              | Some y => if (key x <? key y)%nat then Some y else Some x
              | None => Some x
              end
  end.

Fixpoint min_by {A} (key : A -> nat) (l : list A) : option A :=
  match l with
  | [] => None
  | x :: r => match min_by key r with
              | Some y => if (key y <? key x)%nat then Some y else Some x
              | None => Some x
              end
  end.

(** ** cluster_sites *)

Definition dist_key_eqb (k k' : Q * Specie) : bool :=
  Qeq_bool (fst k) (fst k') && specie_eqb (snd k) (snd k').

(** [for i, x in enumerate(xs): d[f[i]].append(x)]; [f[i]] raises IndexError
    past the end of [f]. *)
Fixpoint append_by_label {V} (f : list nat) (xs : list V) (d : list (nat * list V))
  {struct xs} : result (list (nat * list V)) :=
  match xs, f with
  | [], _ => Ok d
  | x :: xs', l :: f' => append_by_label f' xs' (dict_append Nat.eqb d l x)
  | _ :: _, [] => Raise IndexError
  end.

(** [for i, site in enumerate(mol): clustered_sites[avg_dist[f[i]]].append(site)]. *)
Fixpoint append_by_avg (avg_dist : list (nat * Q)) (f : list nat) (mol : Molecule)
  (d : list (Q * list Site)) {struct mol} : result (list (Q * list Site)) :=
  match mol, f with
  | [], _ => Ok d
  | site :: mol', l :: f' =>
      match dict_get Nat.eqb avg_dist l with
      | Some a => append_by_avg avg_dist f' mol' (dict_append Qeq_bool d a site)
      | None => Raise IndexError
      end
  | _ :: _, [] => Raise IndexError
  end.

Definition bad_molecule : string := "Bad molecule with more than one atom at origin!".

Section Clustering.
Variable ext : Collaborators.

(** [dist_el_sites[(d, sp)] = list(g)] for each group of the sorted sites. *)
Definition add_groups (d : Q) (sites : list Site) (dist_el_sites : list (Q * Specie * list Site))
  : list (Q * Specie * list Site) :=
  fold_left (fun acc g => dict_set dist_key_eqb acc (d, fst g) (snd g))
    (groupby specie_eqb specie
       (sorted (fun s t => specie_ltb ext (specie s) (specie t)) sites))
    dist_el_sites.

(** The last loop of [cluster_sites], over [clustered_sites.items()].  A group
    of [clustered_sites] is never empty, so that [sites[0]] is the head. *)
Fixpoint split_origin (tol : Q) (items : list (Q * list Site)) (origin_site : option Site)
  (dist_el_sites : list (Q * Specie * list Site))
  : result (option Site * list (Q * Specie * list Site)) :=
  match items with
  | [] => Ok (origin_site, dist_el_sites)
  | (d, sites) :: r =>
      if Qltb d tol then
        if (1 <? List.length sites)%nat then Raise (RuntimeError bad_molecule)
        else split_origin tol r (hd_error sites) dist_el_sites
      else split_origin tol r origin_site (add_groups d sites dist_el_sites)
  end.

(** [dists] of [cluster_sites]: the distance from the origin, and a dummy 0. *)
Definition dists_of (mol : Molecule) : list (list Q) :=
  map (fun site => [norm ext (coords site); 0]) mol.

(** [clustered_sites] of [cluster_sites]: the sites under the mean that
    [np.mean] gives for the rows [[dist, 0]] of their cluster. *)
Definition clustered_sites_of (mol : Molecule) (tol : Q) : result (list (Q * list Site)) :=
  let dists := dists_of mol in
  match fclusterdata ext dists tol with
  | Raise e => Raise e
  | Ok f =>
      match append_by_label f dists [] with
      | Raise e => Raise e
      | Ok clustered_dists =>
          let avg_dist := map (fun lv => (fst lv, np_mean (snd lv))) clustered_dists in
          append_by_avg avg_dist f mol []
      end
  end.

(** [cluster_sites(mol, tol)]. *)
Definition cluster_sites (mol : Molecule) (tol : Q)
  : result (option Site * list (Q * Specie * list Site)) :=
  match clustered_sites_of mol tol with
  | Raise e => Raise e
  | Ok clustered_sites => split_origin tol clustered_sites None []
  end.
End Clustering.

(** ** The analyzer's state *)

(** The attributes of a [PointGroupAnalyzer].  [sch_symbol] is [None] until
    it is assigned; the other attributes [_analyze] sets are assigned before
    any procedure reads them, and start here from empty placeholders. *)
Record Analyzer : Type := mkAnalyzer {
  mol : Molecule;
  processed_mol : Molecule;
  tol : Q;
  eig_tol : Q;
  mat_tol : Q;
  sch_symbol : option string;
  principal_axes : vec * vec * vec;
  eigvals : vec;
  rot_sym : list (vec * nat);
  symmops : list SymmOp }.

Definition set_sch_symbol (s : string) (a : Analyzer) : Analyzer :=
  mkAnalyzer (mol a) (processed_mol a) (tol a) (eig_tol a) (mat_tol a)
    (Some s) (principal_axes a) (eigvals a) (rot_sym a) (symmops a).

Definition set_eig (vals : vec) (axes : vec * vec * vec) (a : Analyzer) : Analyzer :=
  mkAnalyzer (mol a) (processed_mol a) (tol a) (eig_tol a) (mat_tol a)
    (sch_symbol a) axes vals (rot_sym a) (symmops a).

Definition set_rot_sym (r : list (vec * nat)) (a : Analyzer) : Analyzer :=
  mkAnalyzer (mol a) (processed_mol a) (tol a) (eig_tol a) (mat_tol a)
    (sch_symbol a) (principal_axes a) (eigvals a) r (symmops a).

Definition set_symmops (o : list SymmOp) (a : Analyzer) : Analyzer :=
  mkAnalyzer (mol a) (processed_mol a) (tol a) (eig_tol a) (mat_tol a)
    (sch_symbol a) (principal_axes a) (eigvals a) (rot_sym a) o.

(** [self.symmops.append(op)] and [self.rot_sym.append((axis, n))]. *)
Definition append_symmop (op : SymmOp) (a : Analyzer) : Analyzer :=
  set_symmops (symmops a ++ [op]) a.

Definition append_rot_sym (axis : vec) (n : nat) (a : Analyzer) : Analyzer :=
  set_rot_sym (rot_sym a ++ [(axis, n)]) a.

(** A method of the analyzer: it reads and updates the attributes, and
    returns a value or raises. *)
Definition M (A : Type) : Type := Analyzer -> result (A * Analyzer).

Definition ret {A} (x : A) : M A := fun self => Ok (x, self).

Definition bind {A B} (m : M A) (k : A -> M B) : M B :=
  fun self => match m self with
              | Ok (x, self') => k x self'
              | Raise e => Raise e
              end.

Definition raise {A} (e : exn) : M A := fun _ => Raise e.

Definition get : M Analyzer := fun self => Ok (self, self).

Definition modify (f : Analyzer -> Analyzer) : M unit := fun self => Ok (tt, f self).

Definition lift {A} (r : result A) : M A :=
  fun self => match r with Ok x => Ok (x, self) | Raise e => Raise e end.

Declare Scope method_scope.
Delimit Scope method_scope with method.
Notation "x <- c1 ;; c2" := (bind c1 (fun x => c2))
  (at level 61, c1 at next level, right associativity) : method_scope.
Notation "c1 ;;; c2" := (bind c1 (fun _ => c2))
  (at level 61, right associativity) : method_scope.

(** [for x in l: body(x)], with no [break]. *)
Fixpoint for_each {A} (l : list A) (body : A -> M unit) : M unit :=
  match l with
  | [] => ret tt
  | x :: r => bind (body x) (fun _ => for_each r body)
  end.

(** [str(n)], as ["{}".format(n)] prints a natural number. *)
Fixpoint digits (fuel n : nat) (acc : string) : string :=
  match fuel with
  | O => acc
  | S fuel' =>
      let acc' := String (Ascii.ascii_of_nat (48 + n mod 10)) acc in
      if (n <? 10)%nat then acc' else digits fuel' (n / 10) acc'
  end.

Definition str (n : nat) : string := digits (S n) n EmptyString.

Definition axes_list (axes : vec * vec * vec) : list vec :=
  let '(a, b, c) := axes in [a; b; c].

(** [eigvals[i]] and [principal_axes[i]], for [i] in [xrange(3)]. *)
Definition component {A} (t : A * A * A) (i : nat) : A :=
  let '(a, b, c) := t in
  match i with 0%nat => a | 1%nat => b | _ => c end.

(** [eigvecs.T]. *)
Definition transpose3 (m : vec * vec * vec) : vec * vec * vec :=
  let '((a, b, c), (d, e, f), (g, h, i)) := m in
  ((a, d, g), (b, e, h), (c, f, i)).

(** ** The classification by eigenvalues *)

(** The three tests of [_analyze], as written there. *)
Definition eig_zero (v : vec) (eps : Q) : bool :=
  let '(v1, v2, v3) := v in Qltb (Qabs (v1 * v2 * v3)) (eps * eps * eps).

Definition eig_all_same (v : vec) (eps : Q) : bool :=
  let '(v1, v2, v3) := v in
  Qltb (Qabs (v1 - v2)) eps && Qltb (Qabs (v1 - v3)) eps.

Definition eig_all_diff (v : vec) (eps : Q) : bool :=
  let '(v1, v2, v3) := v in
  Qgtb (Qabs (v1 - v2)) eps && Qgtb (Qabs (v1 - v2)) eps && Qgtb (Qabs (v2 - v3)) eps.

(** The procedure the [if ... elif ... else] of [_analyze] selects. *)
Inductive Top : Type := Linear | SphericalTop | AsymmetricTop | SymmetricTop.

Definition classify (v : vec) (eps : Q) : Top :=
  if eig_zero v eps then Linear
  else if eig_all_same v eps then SphericalTop
  else if eig_all_diff v eps then AsymmetricTop
  else SymmetricTop.

(** The inertia tensor and the total inertia that the loop of [_analyze]
    accumulates over the sites. *)
Definition inertia_entries (mol : Molecule) : (vec * vec * vec) * Q :=
  fold_left
    (fun acc site =>
       let '(((i00, i01, i02), (i10, i11, i12), (i20, i21, i22)), total) := acc in
       let '(x, y, z) := coords site in
       let wt := atomic_mass (specie site) in
       (((i00 + wt * (y * y + z * z), i01 + - wt * x * y, i02 + - wt * x * z),
         (i10 + - wt * x * y, i11 + wt * (x * x + z * z), i12 + - wt * y * z),
         (i20 + - wt * x * z, i21 + - wt * y * z, i22 + wt * (x * x + y * y))),
        total + wt * (x * x + y * y + z * z)))
    mol (((0, 0, 0), (0, 0, 0), (0, 0, 0)), 0).

(** [inertia_tensor /= total_inertia], for a [total_inertia] that is not
    zero ([_analyze] below sets the case of zero apart). *)
Definition normalized (t : vec * vec * vec) (total : Q) : matrix :=
  let '((a, b, c), (d, e, f), (g, h, i)) := t in
  [[a / total; b / total; c / total];
   [d / total; e / total; f / total];
   [g / total; h / total; i / total]].

(** ** The procedures of the analyzer *)

Section Procedures.
Variable ext : Collaborators.
Local Open Scope method_scope.

Definition origin : vec := (0, 0, 0).

(** [is_valid_op(op, self.processed_mol, self.tol)]. *)
Definition valid (self : Analyzer) (op : SymmOp) : bool :=
  is_valid_op op (processed_mol self) (tol self).

Definition _proc_linear : M unit := fun self =>
  if valid self (inversion_op ext) then
    Ok (tt, set_symmops [identity_op; inversion_op ext] (set_sch_symbol "D*h" self))
  else
    Ok (tt, set_symmops [identity_op] (set_sch_symbol "C*v" self)).

(** The two tests that guard a pair of the scan of [_find_mirror]: the same
    species, and [np.dot(normal, axis) < self.tol]. *)
Definition mirror_candidate (axis : vec) (tol : Q) (s1 s2 : Site) : bool :=
  specie_eqb (specie s1) (specie s2)
  && Qltb (dot (vsub (coords s1) (coords s2)) axis) tol.

(** The pair at which the scan of [_find_mirror] breaks, if it does. *)
Definition mirror_pair (self : Analyzer) (axis : vec) : option (Site * Site) :=
  find (fun p => mirror_candidate axis (tol self) (fst p) (snd p)
                 && valid self (reflection ext (vsub (coords (fst p)) (coords (snd p)))))
       (combinations2 (processed_mol self)).

Definition _find_mirror (axis : vec) : M string := fun self =>
  if valid self (reflection ext axis) then
    Ok ("h"%string, append_symmop (reflection ext axis) self)
  else
    match mirror_pair self axis with
    | Some (s1, s2) =>
        let normal := vsub (coords s1) (coords s2) in
        let self := append_symmop (reflection ext normal) self in
        if (1 <? List.length (rot_sym self))%nat then
          if existsb (fun vr => negb (Qltb (norm ext (vsub (fst vr) axis)) (tol self))
                                && Qltb (dot (fst vr) normal) (tol self))
                     (rot_sym self)
          then Ok ("v"%string, self)
          else Ok ("d"%string, self)
        else Ok ("v"%string, self)
    | None => Ok (""%string, self)
    end.

(** The loop of [_proc_no_rot_sym] over the principal axes, which breaks at
    the first mirror. *)
Fixpoint first_mirror (axes : list vec) : M unit :=
  match axes with
  | [] => ret tt
  | v :: r =>
      mirror_type <- _find_mirror v ;;
      if negb (String.eqb mirror_type "") then modify (set_sch_symbol "Cs")
      else first_mirror r
  end.

Definition _proc_no_rot_sym : M unit :=
  modify (set_sch_symbol "C1") ;;;
  self <- get ;;
  if valid self (inversion_op ext) then
    modify (set_sch_symbol "Ci") ;;;
    modify (append_symmop (inversion_op ext))
  else first_mirror (axes_list (principal_axes self)).

(** [max(self.rot_sym, key=lambda v: v[1])]. *)
Definition max_rot_sym : M (vec * nat) := fun self =>
  match max_by snd (rot_sym self) with
  | Some r => Ok (r, self)
  | None => Raise (ValueError "max() arg is an empty sequence")
  end.

(** [self.sch_symbol += suffix]. *)
Definition extend_sch_symbol (suffix : string) : M unit := fun self =>
  match sch_symbol self with
  | Some s => Ok (tt, set_sch_symbol (s ++ suffix) self)
  | None => Raise (AttributeError "sch_symbol")
  end.

Definition _proc_cyclic : M unit :=
  mr <- max_rot_sym ;;
  let '(main_axis, rot) := mr in
  modify (set_sch_symbol ("C" ++ str rot)) ;;;
  mirror_type <- _find_mirror main_axis ;;
  if String.eqb mirror_type "h" then extend_sch_symbol "h"
  else if String.eqb mirror_type "v" then extend_sch_symbol "v"
  else if String.eqb mirror_type "" then
    self <- get ;;
    if valid self (rotoreflection ext main_axis (180 / inject_Z (Z.of_nat rot)))
    then modify (set_sch_symbol ("S" ++ str (2 * rot)))
    else ret tt
  else ret tt.

Definition _proc_dihedral : M unit :=
  mr <- max_rot_sym ;;
  let '(main_axis, rot) := mr in
  modify (set_sch_symbol ("D" ++ str rot)) ;;;
  mirror_type <- _find_mirror main_axis ;;
  if String.eqb mirror_type "h" then extend_sch_symbol "h"
  else if negb (String.eqb mirror_type "") then extend_sch_symbol "d"
  else ret tt.

Definition _check_R2_axes_asym : M unit :=
  self <- get ;;
  for_each (axes_list (principal_axes self))
    (fun v =>
       let op := from_origin_axis_angle ext origin v 180 in
       self <- get ;;
       if valid self op then
         modify (append_symmop op) ;;; modify (append_rot_sym v 2)
       else ret tt).

Definition _proc_asym_top : M unit :=
  _check_R2_axes_asym ;;;
  self <- get ;;
  if (List.length (rot_sym self) =? 0)%nat then _proc_no_rot_sym
  else if (List.length (rot_sym self) =? 3)%nat then _proc_dihedral
  else _proc_cyclic.

(** The nested function [not_on_axis] of [_get_smallest_set_not_on_axis]. *)
Definition not_on_axis (tol : Q) (axis : vec) (site : Site) : bool :=
  Qgtb (norm ext (cross (coords site) axis)) tol.

Definition _get_smallest_set_not_on_axis (axis : vec) : M (list Site) := fun self =>
  match cluster_sites ext (processed_mol self) (tol self) with
  | Raise e => Raise e
  | Ok (origin_site, dist_el_sites) =>
      let valid_sets :=
        filter (fun valid_set => (0 <? List.length valid_set)%nat)
          (map (fun kv => filter (not_on_axis (tol self) axis) (snd kv)) dist_el_sites) in
      match min_by (@List.length Site) valid_sets with
      | Some s => Ok (s, self)
      | None => Raise (ValueError "min() arg is an empty sequence")
      end
  end.

(** [xrange(max_sym, 0, -1)]. *)
Definition xrange_down (max_sym : nat) : list nat := rev (seq 1 max_sym).

(** The loop of [_check_rot_sym] over the candidate orders. *)
Fixpoint rot_sym_loop (axis : vec) (max_sym : nat) (orders : list nat) : M nat :=
  match orders with
  | [] => ret 1%nat
  | i :: r =>
      if negb (max_sym mod i =? 0)%nat then rot_sym_loop axis max_sym r
      else
        let op := from_origin_axis_angle ext origin axis (360 / inject_Z (Z.of_nat i)) in
        self <- get ;;
        if valid self op then
          modify (append_symmop op) ;;; modify (append_rot_sym axis i) ;;; ret i
        else rot_sym_loop axis max_sym r
  end.

Definition _check_rot_sym (axis : vec) : M nat :=
  min_set <- _get_smallest_set_not_on_axis axis ;;
  let max_sym := List.length min_set in
  rot_sym_loop axis max_sym (xrange_down max_sym).

Definition _check_perpendicular_r2_axis (axis : vec) : M bool :=
  min_set <- _get_smallest_set_not_on_axis axis ;;
  self <- get ;;
  let test_axis p := cross (vsub (coords (fst p)) (coords (snd p))) axis in
  match find (fun p => Qgtb (norm ext (test_axis p)) (tol self)
                       && valid self (from_origin_axis_angle ext origin (test_axis p) 180))
             (combinations2 min_set) with
  | Some p =>
      modify (append_symmop (from_origin_axis_angle ext origin (test_axis p) 180)) ;;;
      modify (append_rot_sym (test_axis p) 2) ;;;
      ret true
  | None => ret false
  end.

(** The loop of [_proc_sym_top] over [itertools.combinations(xrange(3), 2)]:
    the index [ind] it leaves behind when it breaks, nothing when no pair of
    eigenvalues passes the test. *)
Definition unique_axis_index (eigvals : vec) (eps : Q) : option nat :=
  match find (fun ij => Qltb (Qabs (component eigvals (fst ij) - component eigvals (snd ij))) eps)
             (combinations2 (seq 0 3)) with
  | Some (i, j) =>
      hd_error (filter (fun k => negb (k =? i)%nat && negb (k =? j)%nat) (seq 0 3))
  | None => None
  end.

Definition _proc_sym_top : M unit :=
  self <- get ;;
  match unique_axis_index (eigvals self) (eig_tol self) with
  | None => raise (UnboundLocalError "unique_axis")
  | Some ind =>
      let unique_axis := component (principal_axes self) ind in
      _check_rot_sym unique_axis ;;;
      self <- get ;;
      (if (0 <? List.length (rot_sym self))%nat
       then _check_perpendicular_r2_axis unique_axis ;;; ret tt
       else ret tt) ;;;
      self <- get ;;
      if (2 <=? List.length (rot_sym self))%nat then _proc_dihedral
      else if (List.length (rot_sym self) =? 1)%nat then _proc_cyclic
      else _proc_no_rot_sym
  end.

Definition _get_smallest_sym_set : M (list Site) := fun self =>
  match cluster_sites ext (processed_mol self) (tol self) with
  | Raise e => Raise e
  | Ok (origin_site, dist_el_sites) =>
      match min_by (@List.length Site) (map snd dist_el_sites) with
      | Some s => Ok (s, self)
      | None => Raise (ValueError "min() arg is an empty sequence")
      end
  end.

(** [rot_present = defaultdict(bool)], and [rot_present[r] = b]. *)
Definition no_rot_present : nat -> bool := fun _ => false.

Definition set_present (r : nat) (b : bool) (rot_present : nat -> bool) : nat -> bool :=
  fun k => if (k =? r)%nat then b else rot_present k.

(** One test of a candidate 2-fold axis in [_find_spherical_axes]. *)
Definition try_r2 (test_axis : vec) (rot_present : nat -> bool) : M (nat -> bool) :=
  self <- get ;;
  if Qgtb (norm ext test_axis) (tol self) then
    let op := from_origin_axis_angle ext origin test_axis 180 in
    if valid self op then
      modify (append_symmop op) ;;; modify (append_rot_sym test_axis 2) ;;;
      ret (set_present 2 true rot_present)
    else ret (set_present 2 false rot_present)
  else ret rot_present.

(** [for r in (3, 4, 5)], which breaks at the first order found. *)
Fixpoint try_orders (test_axis : vec) (orders : list nat) (rot_present : nat -> bool)
  : M (nat -> bool) :=
  match orders with
  | [] => ret rot_present
  | r :: rest =>
      if negb (rot_present r) then
        self <- get ;;
        let op := from_origin_axis_angle ext origin test_axis (360 / inject_Z (Z.of_nat r)) in
        if valid self op then
          modify (append_symmop op) ;;; modify (append_rot_sym test_axis r) ;;;
          ret (set_present r true rot_present)
        else try_orders test_axis rest (set_present r false rot_present)
      else try_orders test_axis rest rot_present
  end.

(** The loop of [_find_spherical_axes] over the triples of sites. *)
Fixpoint spherical_loop (triples : list (Site * Site * Site)) (rot_present : nat -> bool)
  : M unit :=
  match triples with
  | [] => ret tt
  | (s1, s2, s3) :: rest =>
      rp <- (if negb (rot_present 2%nat)
             then try_r2 (vadd (coords s1) (coords s2)) rot_present
             else ret rot_present) ;;
      rp <- (if negb (rp 2%nat)
             then try_r2 (vadd (coords s1) (coords s3)) rp
             else ret rp) ;;
      let test_axis := cross (vsub (coords s2) (coords s1)) (vsub (coords s3) (coords s1)) in
      self <- get ;;
      rp <- (if Qgtb (norm ext test_axis) (tol self)
             then try_orders test_axis [3; 4; 5]%nat rp
             else ret rp) ;;
      if rp 2%nat && rp 2%nat && (rp 4%nat || rp 5%nat) then ret tt
      else spherical_loop rest rp
  end.

Definition _find_spherical_axes : M unit :=
  test_set <- _get_smallest_sym_set ;;
  spherical_loop (combinations3 test_set) no_rot_present.

(** [if is_valid_op(inversion_op, ...): append it, symbol [yes]; else: symbol [no]]. *)
Definition by_inversion (yes no : string) : M unit :=
  self <- get ;;
  if valid self (inversion_op ext) then
    modify (append_symmop (inversion_op ext)) ;;; modify (set_sch_symbol yes)
  else modify (set_sch_symbol no).

Definition _proc_sph_top : M unit :=
  _find_spherical_axes ;;;
  mr <- max_rot_sym ;;
  let '(main_axis, rot) := mr in
  self <- get ;;
  if (List.length (rot_sym self) =? 0)%nat || (rot <? 3)%nat then _proc_sym_top
  else if (rot =? 3)%nat then
    mirror_type <- _find_mirror main_axis ;;
    if negb (String.eqb mirror_type "") then by_inversion "Th" "Td"
    else modify (set_sch_symbol "T")
  else if (rot =? 4)%nat then by_inversion "Oh" "O"
  else if (rot =? 5)%nat then by_inversion "Ih" "I"
  else ret tt.

(** The procedure [_analyze] runs for each class. *)
Definition dispatch (t : Top) : M unit :=
  match t with
  | Linear => _proc_linear
  | SphericalTop => _proc_sph_top
  | AsymmetricTop => _proc_asym_top
  | SymmetricTop => _proc_sym_top
  end.

Definition not_finite : string := "Array must not contain infs or NaNs".

(** [_analyze].  The locals [inertia_tensor] and [total_inertia] are
    assigned in the [else] branch only, and read after the [if]: [locals]
    is what is assigned when the [if] statement is left.  When
    [total_inertia] is zero, [inertia_tensor /= total_inertia] leaves only
    NaN and infinite entries in the array, and [np.linalg.eig] raises
    LinAlgError on it. *)
Definition _analyze : M unit :=
  self <- get ;;
  locals <- (if (List.length (processed_mol self) =? 1)%nat
             then modify (set_sch_symbol "Kh") ;;; ret None
             else ret (Some (inertia_entries (mol self)))) ;;
  match locals with
  | None => raise (UnboundLocalError "inertia_tensor")
  | Some (inertia_tensor, total_inertia) =>
      if Qeq_bool total_inertia 0 then raise (LinAlgError not_finite)
      else
        let '(vals, eigvecs) := eig ext (normalized inertia_tensor total_inertia) in
        modify (set_eig vals (transpose3 eigvecs)) ;;;
        modify (set_rot_sym []) ;;;
        modify (set_symmops [identity_op]) ;;;
        self <- get ;;
        dispatch (classify (eigvals self) (eig_tol self))
  end.

(** [PointGroupAnalyzer(mol, tolerance, eigen_tolerance, matrix_tol)]. *)
Definition PointGroupAnalyzer (mol : Molecule) (tolerance eigen_tolerance matrix_tol : Q)
  : result Analyzer :=
  match _analyze (mkAnalyzer mol (get_centered_molecule ext mol)
                    tolerance eigen_tolerance matrix_tol
                    None (origin, origin, origin) origin [] []) with
  | Ok (_, self) => Ok self
  | Raise e => Raise e
  end.

(** [get_pointgroup]. *)
Definition get_pointgroup (self : Analyzer) : result PointGroup :=
  match sch_symbol self with
  | Some s => Ok (PointGroup_init s (symmops self) (mat_tol self))
  | None => Raise (AttributeError "sch_symbol")
  end.
End Procedures.

(** ** pymatgen.entries.exp_entries: ExpEntry *)

(** A Python float: a rational, [float("inf")], [float("-inf")] or a NaN.
    [ExpEntry.__init__] compares floats and does no arithmetic on them, so
    that nothing is rounded. *)
Inductive float : Type :=
| Finite (x : Q)
| Inf
| NegInf
| NaN.

(** [a < b] on floats: no comparison with a NaN holds. *)
Definition float_ltb (a b : float) : bool :=
  match a, b with
  | Finite x, Finite y => Qltb x y
  | Finite _, Inf => true
  | NegInf, Finite _ => true
  | NegInf, Inf => true
  | _, _ => false
  end.

(** The three attributes of a [ThermoData] that [ExpEntry.__init__] reads
    (pymatgen.analysis.thermochemistry is not among the sources). *)
Record ThermoData : Type := mkThermoData {
  type : string;
  value : float;
  phaseinfo : string }.

(** The attributes of an [ExpEntry]: [composition] and [energy] are the two
    arguments [__init__] hands to [PDEntry.__init__] (pymatgen.phasediagram is
    not among the sources), under the names [__repr__] reads them by. *)
Record ExpEntry (Comp : Type) : Type := mkExpEntry {
  composition : Comp;
  energy : float;
  _thermodata : list ThermoData;
  temperature : Q }.
Arguments mkExpEntry {Comp} _ _ _ _.
Arguments composition {Comp} _.
Arguments energy {Comp} _.
Arguments _thermodata {Comp} _.
Arguments temperature {Comp} _.

Definition no_enthalpy : string := "List of Thermodata does not contain enthalpy values.".

(** One turn of the loop of [ExpEntry.__init__], on [(found, enthalpy)]. *)
Definition scan_data (acc : bool * float) (data : ThermoData) : bool * float :=
  if String.eqb (type data) "fH" && float_ltb (value data) (snd acc)
     && (negb (String.eqb (phaseinfo data) "gas")
         && negb (String.eqb (phaseinfo data) "liquid"))
  then (true, value data)
  else acc.

Section ExpEntries.
Context {Input Comp : Type}.

(** [Composition(composition)] (pymatgen.core.composition is not among the
    sources): it builds a composition from what it is given, or raises. *)
Variable Composition : Input -> result Comp.

(** [ExpEntry(composition, thermodata, temperature)]. *)
Definition ExpEntry_init (composition : Input) (thermodata : list ThermoData) (temperature : Q)
  : result (ExpEntry Comp) :=
  match Composition composition with
  | Raise e => Raise e
  | Ok comp =>
      let '(found, enthalpy) := fold_left scan_data thermodata (false, Inf) in
      if negb found then Raise (ValueError no_enthalpy)
      else Ok (mkExpEntry comp enthalpy thermodata temperature)
  end.
End ExpEntries.

(** ** Collaborators for concrete runs

    An instance of [Collaborators] to run the procedures on concrete
    molecules.  It is exact where the true collaborators return rationals:
    norms of vectors whose squared length is the square of a rational,
    reflections, rotations by quarter turns, the centring, and the
    eigenvalues of a diagonal inertia tensor.  Other norms, sines and cosines
    are irrational and are approximated, to 1e-9 or better; [eig] is meant
    for diagonal tensors only, which is what the molecules of the examples
    have; the order of species is the alphabetical one of their symbols, in
    place of the periodic table's. *)
Module Ideal.

(** The square root of a rational: exact on squares of rationals, and
    within 1e-9 otherwise. *)
Definition Qsqrt (q : Q) : Q :=
  let s := 1000000000%Z in
  Qmake (Z.sqrt (Qnum q * Zpos (Qden q) * s * s))
        (Z.to_pos (Zpos (Qden q) * s)).

Definition norm (v : vec) : Q := Qsqrt (dot v v).

(** [np.linalg.eig] on a diagonal matrix: the diagonal, in its order, and
    the unit vectors. *)
Definition eig (m : matrix) : vec * (vec * vec * vec) :=
  let at_ i j := nth j (nth i m []) 0 in
  ((at_ 0 0, at_ 1 1, at_ 2 2)%nat, ((1, 0, 0), (0, 1, 0), (0, 0, 1))).

Definition Qleb_sort (l : list Q) : list Q :=
  sorted Qltb l.

Fixpoint gaps (t : Q) (l : list Q) : list Q :=
  match l with
  | a :: ((b :: _) as r) => if Qgtb (b - a) t then b :: gaps t r else gaps t r
  | _ => []
  end.

(** [fclusterdata(dists, t, criterion='distance')] on rows [[d, 0]]: single
    linkage joins two rows whenever a chain of rows with steps of at most
    [t] leads from one to the other.  The label of a row counts the gaps
    wider than [t] below it. *)
Definition labels (dists : list (list Q)) (t : Q) : list nat :=
  let ds := map (fun row => nth 0 row 0) dists in
  let starts := gaps t (Qleb_sort ds) in
  map (fun d => S (List.length (filter (fun b => Qle_bool b d) starts))) ds.

Definition no_matrix : string := "The observation matrix X must be an n by m numpy array.".

Definition no_observations : string :=
  "The number of observations cannot be determined on an empty distance matrix.".

(** scipy refuses fewer than two observations: no observation is no n by m
    array, and one observation leaves the distance matrix empty. *)
Definition fclusterdata (dists : list (list Q)) (t : Q) : result (list nat) :=
  match dists with
  | [] => Raise (TypeError no_matrix)
  | [_] => Raise (ValueError no_observations)
  | _ => Ok (labels dists t)
  end.

Definition inversion_op : SymmOp :=
  mkSymmOp [[-1; 0; 0; 0]; [0; -1; 0; 0]; [0; 0; -1; 0]; [0; 0; 0; 1]].

(** The affine matrix of the linear map with rows [r1], [r2], [r3]. *)
Definition affine (r1 r2 r3 : vec) : SymmOp :=
  let row r := let '(a, b, c) := r in [a; b; c; 0] in
  mkSymmOp [row r1; row r2; row r3; [0; 0; 0; 1]].

(** [SymmOp.reflection(normal)]: the reflection through the plane through
    the origin with that normal, I - 2 n n^T / (n . n). *)
Definition reflection (n : vec) : SymmOp :=
  let '(u, v, w) := n in
  let nn := dot n n in
  affine (1 - 2 * u * u / nn, - (2 * u * v / nn), - (2 * u * w / nn))
         (- (2 * u * v / nn), 1 - 2 * v * v / nn, - (2 * v * w / nn))
         (- (2 * u * w / nn), - (2 * v * w / nn), 1 - 2 * w * w / nn).

(** A rational rounded down to 18 decimals. *)
Definition rounded (q : Q) : Q :=
  Qmake (Qnum q * 1000000000000000000 / Zpos (Qden q)) 1000000000000000000.

(** The alternating series t - t x2 / ((d+1)(d+2)) + ..., [n] terms of it,
    each rounded: the sine for t = x and d = 1, the cosine for t = 1 and
    d = 0, with x2 the square of x. *)
Fixpoint series (x2 t : Q) (d n : nat) : Q :=
  match n with
  | O => 0
  | S n' =>
      t + series x2 (rounded (- (t * x2) / inject_Z (Z.of_nat ((d + 1) * (d + 2)))))
                 (d + 2) n'
  end.

Definition pi : Q := 3141592653589793 # 1000000000000000.

(** Cosine and sine of an angle in degrees: exact for the quarter turns, by
    their series otherwise. *)
Definition cos_sin (angle : Q) : Q * Q :=
  if Qeq_bool angle 90 then (0, 1)
  else if Qeq_bool angle 180 then (-1, 0)
  else if Qeq_bool angle 270 then (0, -1)
  else if Qeq_bool angle 360 then (1, 0)
  else
    let x := rounded (angle * pi / 180) in
    let x2 := rounded (x * x) in
    (rounded (series x2 1 0 24), rounded (series x2 x 1 24)).

(** [SymmOp.from_origin_axis_angle((0, 0, 0), axis, angle)]: Rodrigues'
    rotation about the unit vector along [axis]. *)
Definition from_origin_axis_angle (_ : vec) (axis : vec) (angle : Q) : SymmOp :=
  let '(c, s) := cos_sin angle in
  let len := norm axis in
  let '(u, v, w) := axis in
  let '(u, v, w) := (u / len, v / len, w / len) in
  affine (c + u * u * (1 - c), u * v * (1 - c) - w * s, u * w * (1 - c) + v * s)
         (u * v * (1 - c) + w * s, c + v * v * (1 - c), v * w * (1 - c) - u * s)
         (u * w * (1 - c) - v * s, v * w * (1 - c) + u * s, c + w * w * (1 - c)).

(** [SymmOp.rotoreflection(axis, angle)]: the rotation, then the reflection
    through the plane normal to the axis. *)
Definition rotoreflection (axis : vec) (angle : Q) : SymmOp :=
  mkSymmOp (np_dot (affine_matrix (reflection axis))
                   (affine_matrix (from_origin_axis_angle (0, 0, 0) axis angle))).

(** [mol.get_centered_molecule()]: the centre of mass moved to the origin. *)
Definition get_centered_molecule (mol : Molecule) : Molecule :=
  let total := Qsum (map (fun s => atomic_mass (specie s)) mol) in
  let weighted f := Qsum (map (fun s => atomic_mass (specie s) * f (coords s)) mol) / total in
  let centre := (weighted (fun c => fst (fst c)), weighted (fun c => snd (fst c)),
                 weighted (fun c => snd c)) in
  map (fun s => mkSite (vsub (coords s) centre) (specie s)) mol.

Definition specie_ltb (a b : Specie) : bool := String.ltb (symbol a) (symbol b).

Definition ext : Collaborators :=
  Build_Collaborators norm eig fclusterdata inversion_op reflection
    from_origin_axis_angle rotoreflection get_centered_molecule specie_ltb.

End Ideal.

(** ** What the statements speak of *)

(** A list of operations is closed when the product of any two of its members
    matches a member within the tolerance, by the test of [in_set]. *)
Definition closed (tol : Q) (ops : list SymmOp) : Prop :=
  forall op1 op2, In op1 ops -> In op2 ops -> in_set tol ops (compose (op1, op2)) = true.

(** [ops] holds an operation that [in_set] matches with the identity matrix. *)
Definition has_identity (tol : Q) (ops : list SymmOp) : Prop :=
  in_set tol ops (np_eye 4) = true.

(** The index mapping an operation induces on a molecule: the index of the
    one site that the image of site [i] matches, when there is exactly one. *)
Definition induced_index (symmop : SymmOp) (mol : Molecule) (tol : Q) (i : nat) : option nat :=
  match nth_error mol i with
  | Some site =>
      match find_in_coord_list (cart_coords mol) (operate symmop (coords site)) tol with
      | [j] => Some j
      | _ => None
      end
  | None => None
  end.

(** The sites whose distance from the origin is below the tolerance. *)
Definition near_origin (ext : Collaborators) (tol : Q) (mol : Molecule) : list Site :=
  filter (fun site => Qltb (norm ext (coords site)) tol) mol.


(** The candidate of order [i] about [axis] in [_check_rot_sym]. *)
Definition rotation (ext : Collaborators) (axis : vec) (i : nat) : SymmOp :=
  from_origin_axis_angle ext origin axis (360 / inject_Z (Z.of_nat i)).

(** A datum that [ExpEntry.__init__] takes into account: an enthalpy of
    formation of a phase that is neither gas nor liquid. *)
Definition solid_enthalpy (data : ThermoData) : bool :=
  String.eqb (type data) "fH"
  && (negb (String.eqb (phaseinfo data) "gas")
      && negb (String.eqb (phaseinfo data) "liquid")).

(** A datum that the loop of [ExpEntry.__init__] can take up: one taken into
    account whose value is below [float("inf")], which a value of infinity or
    a NaN is not. *)
Definition counts (data : ThermoData) : bool :=
  solid_enthalpy data && float_ltb (value data) Inf.

(** What holds of [(found, enthalpy)] after the loop of [ExpEntry.__init__]
    has seen the data [seen]. *)
Definition scanned (seen : list ThermoData) (acc : bool * float) : Prop :=
  match acc with
  | (false, e) => e = Inf /\ forall data, In data seen -> counts data = false
  | (true, e) =>
      exists data, In data seen /\ counts data = true /\ e = value data
                   /\ forall data', In data' seen -> solid_enthalpy data' = true ->
                                    float_ltb (value data') e = false
  end.

(** [added] is a sequence of operations that [generate_full_symmops] may add
    after [ops]: each is the product of two operations that stand before it,
    and matched none of them when it was added. *)
Inductive built_from (atol : Q) : list SymmOp -> list SymmOp -> Prop :=
| built_nil ops : built_from atol ops []
| built_cons ops op1 op2 added :
    In op1 ops -> In op2 ops ->
    in_set atol ops (compose (op1, op2)) = false ->
    built_from atol (ops ++ [mkSymmOp (compose (op1, op2))]) added ->
    built_from atol ops (mkSymmOp (compose (op1, op2)) :: added).

(** The attributes that no procedure changes once [_analyze] has selected
    one. *)
Definition same_setting (self self' : Analyzer) : Prop :=
  mol self' = mol self /\ processed_mol self' = processed_mol self
  /\ tol self' = tol self /\ eig_tol self' = eig_tol self /\ mat_tol self' = mat_tol self
  /\ principal_axes self' = principal_axes self /\ eigvals self' = eigvals self.

(** [self'] comes from [self] by appending operations that passed
    [is_valid_op], and rotation records. *)
Definition extends (self self' : Analyzer) : Prop :=
  same_setting self self'
  /\ (exists ops, symmops self' = symmops self ++ ops
                  /\ Forall (fun op => valid self op = true) ops)
  /\ (exists records, rot_sym self' = rot_sym self ++ records).

(** The recorded operations start with the identity, and every other one
    passed [is_valid_op] on the centred molecule. *)
Definition recorded_valid (self : Analyzer) : Prop :=
  exists ops, symmops self = identity_op :: ops
              /\ Forall (fun op => valid self op = true) ops.

(** A symbol has been assigned. *)
Definition assigned (self : Analyzer) : Prop := sch_symbol self <> None.

(** [self'] comes from [self] by recording valid operations and rotations
    whose orders satisfy [P]; the symbol is left as it is. *)
Definition records (P : nat -> Prop) (self self' : Analyzer) : Prop :=
  extends self self'
  /\ sch_symbol self' = sch_symbol self
  /\ exists rs, rot_sym self' = rot_sym self ++ rs /\ Forall (fun r => P (snd r)) rs.

(** The orders [_find_spherical_axes] looks for. *)
Definition spherical_order (n : nat) : Prop := (2 <= n <= 5)%nat.

(** The attributes [_analyze] has assigned when it selects a procedure. *)
Definition at_dispatch (ext : Collaborators) (self : Analyzer) : Analyzer :=
  let '(vals, eigvecs) :=
    eig ext (normalized (fst (inertia_entries (mol self))) (snd (inertia_entries (mol self)))) in
  set_symmops [identity_op] (set_rot_sym [] (set_eig vals (transpose3 eigvecs) self)).

(** What holds of a class [class] under the key [(d, sp)]. *)
Definition class_of (mol0 : Molecule) (atol : Q) (entry : Q * Specie * list Site) : Prop :=
  let '((d, sp), class) := entry in
  class <> [] /\ atol <= d
  /\ forall site, In site class -> In site mol0 /\ specie_eqb (specie site) sp = true.

(** From the flags [rp] and the analyzer [self] to the flags [rp'] and the
    analyzer [self']: no flag was cleared, and the rotations recorded have
    orders that differ from one another, whose flags were clear and are now
    set. *)
Definition once (rp : nat -> bool) (self : Analyzer) (rp' : nat -> bool) (self' : Analyzer)
  : Prop :=
  (forall r, rp r = true -> rp' r = true)
  /\ exists rs, rot_sym self' = rot_sym self ++ rs
                /\ NoDup (map snd rs)
                /\ forall r, In r (map snd rs) -> rp r = false /\ rp' r = true.

(** ** Molecules and operations of the examples *)

Definition atom (name : string) (mass x y z : Q) : Site :=
  mkSite (x, y, z) (mkSpecie name mass).

(** The attributes of an analyzer of a centred molecule when [_analyze]
    selects a procedure, for principal axes along x, y and z. *)
Definition analyzer_at (mol : Molecule) (tol : Q) (eigvals : vec) : Analyzer :=
  mkAnalyzer mol mol tol (1 # 100) (1 # 10) None
    ((1, 0, 0), (0, 1, 0), (0, 0, 1)) eigvals [] [identity_op].

(** The rotation about the z axis by the angle of cosine 4888/4913 and sine
    495/4913, about 5.8 degrees. *)
Definition small_rotation : SymmOp :=
  mkSymmOp [[4888 # 4913; - (495 # 4913); 0; 0];
            [495 # 4913; 4888 # 4913; 0; 0];
            [0; 0; 1; 0];
            [0; 0; 0; 1]].

(** Two hydrogen atoms, one unit on each side of the origin. *)
Definition dihydrogen : Molecule := [atom "H" 1 0 0 1; atom "H" 1 0 0 (-1)].

(** The quarter turn about the z axis. *)
Definition quarter_turn_z : SymmOp :=
  mkSymmOp [[0; -1; 0; 0]; [1; 0; 0; 0]; [0; 0; 1; 0]; [0; 0; 0; 1]].

(** Five atoms of one species in the xy plane, near the corners of a square
    and drifting outwards and inwards along the turn: at distances 1 and 1.4
    on the +x axis, 1.2 on +y, 1.05 on -x, 0.85 on -y. *)
Definition drifting_square : Molecule :=
  [atom "X" 1 1 0 0; atom "X" 1 (14 # 10) 0 0; atom "X" 1 0 (12 # 10) 0;
   atom "X" 1 (- (105 # 100)) 0 0; atom "X" 1 0 (- (85 # 100)) 0].

(** Four atoms of one species at the corners of a square, in the xz plane and
    in the xy plane. *)
Definition square_xz : Molecule :=
  [atom "X" 1 1 0 0; atom "X" 1 (-1) 0 0; atom "X" 1 0 0 1; atom "X" 1 0 0 (-1)].

Definition square_xy : Molecule :=
  [atom "X" 1 1 0 0; atom "X" 1 (-1) 0 0; atom "X" 1 0 1 0; atom "X" 1 0 (-1) 0].

(** Three pairs of atoms on the three axes, of masses 1, 4 and 9 at the
    distances 6, 3 and 2: the inertia tensor is 2/3 of the identity. *)
Definition accidental_sphere : Molecule :=
  [atom "A" 1 6 0 0; atom "A" 1 (-6) 0 0;
   atom "B" 4 0 3 0; atom "B" 4 0 (-3) 0;
   atom "C" 9 0 0 2; atom "C" 9 0 0 (-2)].

(** Two atoms of one species, on the x axis and on the z axis: the plane
    x = z is a mirror of the pair, and its normal (1, 0, -1) is not
    orthogonal to the z axis. *)
Definition bent_pair : Molecule := [atom "X" 1 1 0 0; atom "X" 1 0 0 1].

Definition bent_pair_analyzer : Analyzer := analyzer_at bent_pair (3 # 10) (0, 0, 0).

(** Three pairs of atoms on the three axes at distance 1, of masses 4, 3
    and 1: the eigenvalues of the normalised inertia tensor are 1/2, 5/8
    and 7/8. *)
Definition boundary_top : Molecule :=
  [atom "A" 4 1 0 0; atom "A" 4 (-1) 0 0;
   atom "B" 3 0 1 0; atom "B" 3 0 (-1) 0;
   atom "C" 1 0 0 1; atom "C" 1 0 0 (-1)].

(** Two atoms of one species on the x axis, both 0.37 from the origin. *)
Definition far_pair : Molecule :=
  [atom "X" 1 (37 # 100) 0 0; atom "X" 1 (- (37 # 100)) 0 0].

(** Two atoms of one species on the x axis, 0.28 and 0.31 from the origin. *)
Definition off_centre_pair : Molecule :=
  [atom "X" 1 (28 # 100) 0 0; atom "X" 1 (- (31 # 100)) 0 0].

(** Six atoms on the x axis, each within the tolerance 0.3 of the next: two
    of them lie within the tolerance of the origin, they all fall in one
    cluster, whose representative distance is not below the tolerance, and
    [cluster_sites] returns, with no origin site. *)
Definition chain_of_atoms : Molecule :=
  map (fun x => atom "X" 1 x 0 0)
      [1 # 10; 2 # 10; 45 # 100; 7 # 10; 95 # 100; 12 # 10].


(** The symbol the whole analysis assigns, with the collaborators of [Ideal]
    and the default tolerances. *)
Definition symbol_of (mol : Molecule) : result (option string) :=
  match PointGroupAnalyzer Ideal.ext mol (3 # 10) (1 # 100) (1 # 10) with
  | Ok self => Ok (sch_symbol self)
  | Raise e => Raise e
  end.

(** Data of solid phases, one of them with a NaN and one with an infinite
    value, of a gas and of an entropy. *)
Definition thermodata_example : list ThermoData :=
  [mkThermoData "fH" (Finite (-100)) "solid"; mkThermoData "fH" (Finite (-120)) "gas";
   mkThermoData "S" (Finite 5) "solid"; mkThermoData "fH" NaN "solid";
   mkThermoData "fH" (Finite (-110)) "solid"; mkThermoData "fH" Inf "solid";
   mkThermoData "fH" (Finite (-105)) "solid"].

(** Data none of which can be taken up: a gas, an entropy, and two solid
    phases whose values are infinite and NaN. *)
Definition thermodata_without_enthalpy : list ThermoData :=
  [mkThermoData "fH" (Finite (-120)) "gas"; mkThermoData "S" (Finite 5) "solid";
   mkThermoData "fH" Inf "solid"; mkThermoData "fH" NaN "solid"].

(** A [Composition] that takes a formula as it is. *)
Definition formula_composition (formula : string) : result string := Ok formula.

(** The octahedron of six like atoms on the axes, with the eigenvalues of its
    normalised inertia tensor. *)
Definition octahedron : Molecule :=
  [atom "X" 1 1 0 0; atom "X" 1 (-1) 0 0; atom "X" 1 0 1 0;
   atom "X" 1 0 (-1) 0; atom "X" 1 0 0 1; atom "X" 1 0 0 (-1)].

Definition octahedron_analyzer : Analyzer :=
  analyzer_at octahedron (3 # 10) (2 # 3, 2 # 3, 2 # 3).

(** The analyzer of the octahedron after [_find_spherical_axes], and after
    [_proc_sph_top]. *)
Definition octahedron_axes : Analyzer :=
  Eval vm_compute in
    match _find_spherical_axes Ideal.ext octahedron_analyzer with
    | Ok (_, self) => self
    | Raise _ => octahedron_analyzer
    end.

Definition octahedron_top : Analyzer :=
  Eval vm_compute in
    match _proc_sph_top Ideal.ext octahedron_analyzer with
    | Ok (_, self) => self
    | Raise _ => octahedron_analyzer
    end.

(** The analyzer of the square in the xy plane after [_proc_sym_top]. *)
Definition square_top : Analyzer :=
  Eval vm_compute in
    match _proc_sym_top Ideal.ext (analyzer_at square_xy (3 # 10) (1 # 2, 1 # 2, 1)) with
    | Ok (_, self) => self
    | Raise _ => analyzer_at square_xy (3 # 10) (1 # 2, 1 # 2, 1)
    end.

(** The analyzer of the hydrogen molecule, as the constructor returns it. *)
Definition dihydrogen_analyzer : Analyzer :=
  Eval vm_compute in
    match PointGroupAnalyzer Ideal.ext dihydrogen (3 # 10) (1 # 100) (1 # 10) with
    | Ok self => self
    | Raise _ => analyzer_at dihydrogen (3 # 10) (0, 0, 0)
    end.

(** * Properties *)

(** ** generate_full_symmops *)

(** A pass that is not complete has added one operation. *)
Lemma scan_incomplete symmops tol new_set :
  scan symmops tol = (new_set, false) ->
  List.length new_set = S (List.length symmops).
Proof.
  unfold scan. destruct (find _ _); intros H; inversion H; subst.
  rewrite length_app. simpl. lia.
Qed.

Lemma scan_complete symmops tol new_set :
  scan symmops tol = (new_set, true) -> new_set = symmops /\ closed tol symmops.
Proof.
  unfold scan. destruct (find _ _) eqn:Hfind; intros H; inversion H; subst.
  split; [reflexivity |].
  intros op1 op2 H1 H2.
  pose proof (find_none _ _ Hfind (op1, op2) (in_prod _ _ _ _ H1 H2)) as Hn.
  apply negb_false_iff in Hn. exact Hn.
Qed.

Lemma scan_grows symmops tol :
  exists added, fst (scan symmops tol) = symmops ++ added /\ (List.length added <= 1)%nat.
Proof.
  unfold scan. destruct (find _ _).
  - eexists. split; [reflexivity | simpl; lia].
  - exists []. rewrite app_nil_r. split; [reflexivity | simpl; lia].
Qed.

(** The body of the source, one call unfolded. *)
Lemma generate_full_symmops_body symmops tol :
  generate_full_symmops symmops tol =
  let new_set := fst (scan symmops tol) in
  if (200 <? List.length new_set)%nat then new_set
  else if snd (scan symmops tol) then new_set
  else generate_full_symmops new_set tol.
Proof.
  funelim (generate_full_symmops symmops tol); cbv zeta; rewrite e; cbn [fst snd];
    rewrite ?e0, ?e'; reflexivity.
Qed.

(** Induction along the calls of [generate_full_symmops]: a property of the
    arguments and the result holds when it holds where a call returns, and
    passes from a recursive call to the call that made it. *)
Lemma generate_full_symmops_calls (atol : Q) (P : list SymmOp -> list SymmOp -> Prop) :
  (forall gens,
      (200 < List.length (fst (scan gens atol)))%nat \/ snd (scan gens atol) = true ->
      P gens (fst (scan gens atol))) ->
  (forall gens r,
      (List.length (fst (scan gens atol)) <= 200)%nat ->
      scan gens atol = (fst (scan gens atol), false) ->
      P (fst (scan gens atol)) r -> P gens r) ->
  forall gens, P gens (generate_full_symmops gens atol).
Proof.
  intros Hret Hrec gens.
  remember (room gens) as n eqn:Hn. revert gens Hn.
  induction n as [n IH] using lt_wf_ind. intros gens Hn.
  rewrite generate_full_symmops_body. cbv zeta.
  destruct (200 <? List.length (fst (scan gens atol)))%nat eqn:Hceil.
  - apply Hret. left. apply Nat.ltb_lt. exact Hceil.
  - destruct (snd (scan gens atol)) eqn:Hcomplete.
    + apply Hret. right. exact Hcomplete.
    + apply Nat.ltb_ge in Hceil.
      assert (Hscan : scan gens atol = (fst (scan gens atol), false))
        by (rewrite <- Hcomplete; apply surjective_pairing).
      apply Hrec; [exact Hceil | exact Hscan |].
      apply (IH (room (fst (scan gens atol)))); [| reflexivity].
      apply scan_incomplete in Hscan. subst n. unfold room. lia.
Qed.

(** The operations given are kept, in their order, at the head of the result. *)
Lemma generate_full_symmops_prefix gens atol :
  exists added, generate_full_symmops gens atol = gens ++ added.
Proof.
  apply (generate_full_symmops_calls atol (fun g r => exists added, r = g ++ added)).
  - intros g _. destruct (scan_grows g atol) as [added [Ha _]]. eauto.
  - intros g r _ _ [added' ->].
    destruct (scan_grows g atol) as [added [-> _]].
    exists (added ++ added'). rewrite app_assoc. reflexivity.
Qed.

Lemma generate_full_symmops_length_ge gens atol :
  (List.length gens <= List.length (generate_full_symmops gens atol))%nat.
Proof.
  destruct (generate_full_symmops_prefix gens atol) as [added ->].
  rewrite length_app. lia.
Qed.

Lemma in_set_app atol ops added mat :
  in_set atol ops mat = true -> in_set atol (ops ++ added) mat = true.
Proof.
  unfold in_set. rewrite existsb_app. intros ->. reflexivity.
Qed.

(** Where a call returns, the list it returns is past the ceiling, or a full
    pass over it finds no new operation. *)
Lemma generate_full_symmops_stops gens atol :
  (200 < List.length (generate_full_symmops gens atol))%nat
  \/ scan (generate_full_symmops gens atol) atol = (generate_full_symmops gens atol, true).
Proof.
  apply (generate_full_symmops_calls atol
           (fun _ r => (200 < List.length r)%nat \/ scan r atol = (r, true))).
  - intros g [H | H]; [left; exact H | right].
    destruct (scan g atol) as [new_set complete] eqn:Hscan. cbn [fst snd] in *. subst.
    destruct (scan_complete _ _ _ Hscan) as [-> _]. exact Hscan.
  - intros g r _ _ H. exact H.
Qed.

Lemma generate_full_symmops_length gens atol :
  (List.length (generate_full_symmops gens atol) <= Nat.max 201 (S (List.length gens)))%nat.
Proof.
  apply (generate_full_symmops_calls atol
           (fun g r => (List.length r <= Nat.max 201 (S (List.length g)))%nat)).
  - intros g _. destruct (scan_grows g atol) as [added [-> Hone]].
    rewrite length_app. lia.
  - intros g r Hceil Hscan H. apply scan_incomplete in Hscan. lia.
Qed.

Lemma generate_full_symmops_closed gens atol :
  (List.length (generate_full_symmops gens atol) <= 200)%nat ->
  closed atol (generate_full_symmops gens atol).
Proof.
  intros Hlen.
  destruct (generate_full_symmops_stops gens atol) as [H | H]; [lia |].
  apply scan_complete in H. apply H.
Qed.

(** C4 (as amended): the list that [generate_full_symmops] returns keeps
    the operations given, in their order and at its head; so, when the
    generating set holds an operation that matches the identity matrix
    within the tolerance, so does the list returned; and whenever the
    returned list has at most 200 operations, the product of any two of its
    members matches a member within the tolerance. *)
Theorem generate_full_symmops_group gens atol :
  (exists added, generate_full_symmops gens atol = gens ++ added)
  /\ (has_identity atol gens -> has_identity atol (generate_full_symmops gens atol))
  /\ ((List.length (generate_full_symmops gens atol) <= 200)%nat ->
      closed atol (generate_full_symmops gens atol)).
Proof.
  split; [apply generate_full_symmops_prefix |]. split.
  - destruct (generate_full_symmops_prefix gens atol) as [added ->].
    apply in_set_app.
  - apply generate_full_symmops_closed.
Qed.

(** The identity and the quarter turn about the z axis: the closure adds the
    half turn and the three-quarter turn. *)
Lemma generate_full_symmops_group_witness :
  (exists added,
      generate_full_symmops [identity_op; quarter_turn_z] (1 # 10)
      = [identity_op; quarter_turn_z] ++ added)
  /\ has_identity (1 # 10) (generate_full_symmops [identity_op; quarter_turn_z] (1 # 10))
  /\ closed (1 # 10) (generate_full_symmops [identity_op; quarter_turn_z] (1 # 10)).
Proof.
  destruct (generate_full_symmops_group [identity_op; quarter_turn_z] (1 # 10))
    as (Hkeeps & Hidentity & Hclosed).
  split; [exact Hkeeps |]. split.
  - apply Hidentity. vm_compute. reflexivity.
  - apply Hclosed. apply Nat.leb_le. vm_compute. reflexivity.
Defined.

Example generate_full_symmops_quarter_turn :
  List.length (generate_full_symmops [identity_op; quarter_turn_z] (1 # 10)) = 4%nat.
Proof. vm_compute. reflexivity. Qed.

(** [small_rotation] is a rotation: its product with its transpose is the
    identity. *)
Example small_rotation_orthogonal :
  all2 (all2 Qeq_bool)
    (np_dot (affine_matrix small_rotation) (columns (affine_matrix small_rotation)))
    (np_eye 4) = true.
Proof. vm_compute. reflexivity. Qed.

(** C4, counterexample: at the tolerance 0.1 the square of the small rotation
    matches the rotation itself, so the closure of this one generator is the
    generator alone: one operation, under the ceiling, and no member of the
    result matches the identity matrix (the sine, 0.1008, is off by more than
    the tolerance). *)
Lemma generate_full_symmops_without_identity :
  generate_full_symmops [small_rotation] (1 # 10) = [small_rotation]
  /\ in_set (1 # 10) (generate_full_symmops [small_rotation] (1 # 10)) (np_eye 4) = false.
Proof. split; vm_compute; reflexivity. Qed.

(** The empty generating set: nothing is added to it either. *)
Example generate_full_symmops_nil : generate_full_symmops [] (1 # 10) = [].
Proof. vm_compute. reflexivity. Qed.

(** C5 (as amended): [generate_full_symmops] is a total function (its
    recursion is well founded: a call recurses only on a list one longer and
    of at most 200 operations).  A pass adds at most one operation; the
    result is the given list and what was added to it; it is returned when it
    has more than 200 operations or when a full pass over it finds no new
    operation; and it has at most 201 operations, or one more than the given
    list when that is longer. *)
Theorem generate_full_symmops_terminates gens atol :
  (List.length (fst (scan gens atol)) <= S (List.length gens))%nat
  /\ (exists added, generate_full_symmops gens atol = gens ++ added)
  /\ ((200 < List.length (generate_full_symmops gens atol))%nat
      \/ scan (generate_full_symmops gens atol) atol
         = (generate_full_symmops gens atol, true))
  /\ (List.length (generate_full_symmops gens atol)
      <= Nat.max 201 (S (List.length gens)))%nat.
Proof.
  repeat split.
  - destruct (scan_grows gens atol) as [added [-> Hone]]. rewrite length_app. lia.
  - apply generate_full_symmops_prefix.
  - apply generate_full_symmops_stops.
  - apply generate_full_symmops_length.
Qed.

(** C5, counterexample: given 202 operations (202 times the identity), the
    function returns a list of more than 201. *)
Lemma generate_full_symmops_exceeds_201 :
  (201 < List.length (generate_full_symmops (repeat identity_op 202) (1 # 10)))%nat.
Proof.
  apply Nat.lt_le_trans with (List.length (repeat identity_op 202)).
  - rewrite repeat_length. lia.
  - apply generate_full_symmops_length_ge.
Qed.

(** ** is_valid_op *)

Lemma indices_from_spec {A} (p : A -> bool) (l : list A) (i j : nat) :
  In j (indices_from i p l) <->
  exists x, nth_error l (j - i) = Some x /\ p x = true /\ (i <= j)%nat.
Proof.
  revert i. induction l as [| y l IH]; intros i; simpl.
  - split; [intros [] | intros [x [H _]]]. destruct (j - i)%nat; discriminate.
  - assert (Hrest : In j (indices_from (S i) p l) <->
                    exists x, nth_error (y :: l) (j - i) = Some x /\ p x = true /\ (S i <= j)%nat).
    { rewrite IH. split; intros [x [Hn [Hp Hle]]]; exists x; repeat split; trivial.
      - replace (j - i)%nat with (S (j - S i)) by lia. exact Hn.
      - replace (j - i)%nat with (S (j - S i)) in Hn by lia. exact Hn. }
    destruct (p y) eqn:Hy; simpl; rewrite Hrest; split.
    + intros [<- | [x [Hn [Hp Hle]]]].
      * exists y. rewrite Nat.sub_diag. auto.
      * exists x. repeat split; trivial. lia.
    + intros [x [Hn [Hp Hle]]]. destruct (Nat.eq_dec i j) as [-> | Hne]; [left; reflexivity |].
      right. exists x. repeat split; trivial. lia.
    + intros [x [Hn [Hp Hle]]]. exists x. repeat split; trivial. lia.
    + intros [x [Hn [Hp Hle]]]. exists x. repeat split; trivial.
      destruct (Nat.eq_dec i j) as [-> | Hne]; [| lia].
      rewrite Nat.sub_diag in Hn. simpl in Hn. congruence.
Qed.

Lemma find_in_coord_list_spec coord_list coord atol j :
  In j (find_in_coord_list coord_list coord atol) <->
  exists c, nth_error coord_list j = Some c /\ within atol c coord = true.
Proof.
  unfold find_in_coord_list. rewrite indices_from_spec, Nat.sub_0_r.
  split; intros [c H]; exists c; intuition lia.
Qed.

(** C8 (as amended): when [is_valid_op] returns True, the image of every site
    matches exactly one site of the molecule within the tolerance, and that
    site has the same species: the induced index mapping is a total,
    species-preserving function on the sites.  (It need not be injective.) *)
Theorem is_valid_op_induces_mapping symmop mol tol i site :
  is_valid_op symmop mol tol = true ->
  nth_error mol i = Some site ->
  exists j target,
    induced_index symmop mol tol i = Some j
    /\ find_in_coord_list (cart_coords mol) (operate symmop (coords site)) tol = [j]
    /\ nth_error mol j = Some target
    /\ within tol (coords target) (operate symmop (coords site)) = true
    /\ species_and_occu_eqb target site = true.
Proof.
  intros Hvalid Hsite.
  unfold is_valid_op in Hvalid. rewrite forallb_forall in Hvalid.
  specialize (Hvalid site (nth_error_In _ _ Hsite)).
  unfold maps_to_equivalent in Hvalid. unfold induced_index. rewrite Hsite.
  destruct (find_in_coord_list _ _ _) as [| j [| ? ?]] eqn:Hfind; try discriminate.
  destruct (nth_error mol j) as [target |] eqn:Hj; try discriminate.
  exists j, target. repeat split; trivial.
  assert (Hin : In j (find_in_coord_list (cart_coords mol) (operate symmop (coords site)) tol))
    by (rewrite Hfind; left; reflexivity).
  apply find_in_coord_list_spec in Hin. destruct Hin as [c [Hc Hw]].
  unfold cart_coords in Hc. rewrite nth_error_map, Hj in Hc. simpl in Hc.
  inversion Hc. subst. exact Hw.
Qed.

(** The inversion swaps the two atoms of [dihydrogen]. *)
Lemma is_valid_op_induces_mapping_witness :
  exists j target,
    induced_index Ideal.inversion_op dihydrogen (3 # 10) 0 = Some j
    /\ find_in_coord_list (cart_coords dihydrogen)
         (operate Ideal.inversion_op (coords (atom "H" 1 0 0 1))) (3 # 10) = [j]
    /\ nth_error dihydrogen j = Some target
    /\ within (3 # 10) (coords target)
         (operate Ideal.inversion_op (coords (atom "H" 1 0 0 1))) = true
    /\ species_and_occu_eqb target (atom "H" 1 0 0 1) = true.
Proof.
  apply (is_valid_op_induces_mapping Ideal.inversion_op dihydrogen (3 # 10) 0 (atom "H" 1 0 0 1)).
  - vm_compute. reflexivity.
  - reflexivity.
Defined.

(** C8, counterexample: at the tolerance 0.3 the quarter turn is a valid
    operation of [drifting_square], and the induced mapping sends both site 0
    and site 1 to site 2, and no site to site 1: it is no bijection. *)
Lemma is_valid_op_not_bijective :
  is_valid_op quarter_turn_z drifting_square (3 # 10) = true
  /\ map (induced_index quarter_turn_z drifting_square (3 # 10)) (seq 0 5)
     = [Some 2; Some 2; Some 3; Some 4; Some 0]%nat.
Proof. split; vm_compute; reflexivity. Qed.

(** ** _analyze *)

Lemma Qltb_lt a b : Qltb a b = true <-> a < b.
Proof.
  unfold Qltb. rewrite negb_true_iff. split.
  - intros H. apply Qnot_le_lt. intros Hle. apply Qle_bool_iff in Hle. congruence.
  - intros H. destruct (Qle_bool b a) eqn:Hle; [| reflexivity].
    apply Qle_bool_iff in Hle. exfalso. exact (Qlt_not_le _ _ H Hle).
Qed.

Lemma Qltb_ge a b : Qltb a b = false <-> b <= a.
Proof.
  unfold Qltb. rewrite negb_false_iff. apply Qle_bool_iff.
Qed.

(** C1: for every molecule whose centred molecule has exactly one atom, and
    whatever the collaborators and the tolerances, the analysis does not
    complete: after the symbol Kh is assigned, [_analyze] reads the local
    [inertia_tensor], which only the other branch assigns. *)
Theorem single_atom_analysis_raises ext mol tolerance eigen_tolerance matrix_tol :
  List.length (get_centered_molecule ext mol) = 1%nat ->
  PointGroupAnalyzer ext mol tolerance eigen_tolerance matrix_tol
  = Raise (UnboundLocalError "inertia_tensor").
Proof.
  intros H. unfold PointGroupAnalyzer, _analyze, bind, get. cbn [processed_mol].
  rewrite H. reflexivity.
Qed.

(** One hydrogen atom at the origin. *)
Lemma single_atom_analysis_raises_witness :
  PointGroupAnalyzer Ideal.ext [atom "H" 1 0 0 0] (3 # 10) (1 # 100) (1 # 10)
  = Raise (UnboundLocalError "inertia_tensor").
Proof.
  apply single_atom_analysis_raises. reflexivity.
Defined.

(** What the test [eig_all_diff] of the source requires: two of the three
    differences; the difference of the first and the third eigenvalue is not
    looked at. *)
Lemma eig_all_diff_spec v1 v2 v3 eps :
  eig_all_diff (v1, v2, v3) eps = true <->
  eps < Qabs (v1 - v2) /\ eps < Qabs (v2 - v3).
Proof.
  unfold eig_all_diff, Qgtb. rewrite !andb_true_iff, !Qltb_lt. tauto.
Qed.

(** C2: the square in the xz plane has the eigenvalues (1/2, 1, 1/2).  The
    first and the third are equal, yet with the default tolerances the
    analysis takes it for an asymmetric top and assigns D2h; the same square
    in the xy plane, eigenvalues (1/2, 1/2, 1), is a symmetric top and gets
    D4h. *)
Theorem asymmetric_top_with_equal_eigenvalues :
  (exists self,
      PointGroupAnalyzer Ideal.ext square_xz (3 # 10) (1 # 100) (1 # 10) = Ok self
      /\ eigvals self = (2 # 4, 4 # 4, 2 # 4)
      /\ classify (eigvals self) (eig_tol self) = AsymmetricTop
      /\ Qgtb (Qabs ((2 # 4) - (2 # 4))) (eig_tol self) = false
      /\ sch_symbol self = Some "D2h"%string)
  /\ (exists self,
         PointGroupAnalyzer Ideal.ext square_xy (3 # 10) (1 # 100) (1 # 10) = Ok self
         /\ classify (eigvals self) (eig_tol self) = SymmetricTop
         /\ sch_symbol self = Some "D4h"%string).
Proof.
  split; eexists; (split; [vm_compute; reflexivity |]); repeat split.
Qed.

(** ** _proc_sph_top *)

(** When the search of [_find_spherical_axes] records no axis, [max] raises:
    the test [len(self.rot_sym) == 0] comes after it. *)
Lemma _proc_sph_top_no_axis ext self self' :
  _find_spherical_axes ext self = Ok (tt, self') ->
  rot_sym self' = [] ->
  _proc_sph_top ext self = Raise (ValueError "max() arg is an empty sequence").
Proof.
  intros Hfind Hnil. unfold _proc_sph_top, bind. rewrite Hfind.
  unfold max_rot_sym. rewrite Hnil. reflexivity.
Qed.

(** When the highest order recorded is less than 3, [_proc_sph_top] goes on as
    [_proc_sym_top]. *)
Lemma _proc_sph_top_low_order ext self self' main_axis rot :
  _find_spherical_axes ext self = Ok (tt, self') ->
  max_by snd (rot_sym self') = Some (main_axis, rot) ->
  (rot < 3)%nat ->
  _proc_sph_top ext self = _proc_sym_top ext self'.
Proof.
  intros Hfind Hmax Hrot. unfold _proc_sph_top, bind at 1. rewrite Hfind.
  unfold bind at 1. unfold max_rot_sym. rewrite Hmax.
  unfold bind at 1, get.
  apply Nat.ltb_lt in Hrot. rewrite Hrot, orb_true_r. reflexivity.
Qed.

(** C3: [accidental_sphere] is classified as a spherical top; each of its
    classes of equivalent atoms has two atoms, so the axis search has no
    triple to try and records no axis; and the analysis ends with the
    ValueError of [max], not in the symmetric-top procedure. *)
Theorem spherical_top_without_axis_raises :
  classify (fst (eig Ideal.ext (normalized (fst (inertia_entries accidental_sphere))
                                           (snd (inertia_entries accidental_sphere)))))
           (1 # 100) = SphericalTop
  /\ PointGroupAnalyzer Ideal.ext accidental_sphere (3 # 10) (1 # 100) (1 # 10)
     = Raise (ValueError "max() arg is an empty sequence").
Proof. split; vm_compute; reflexivity. Qed.

(** ** _find_mirror *)

(** C7: about the z axis, the difference (1, 0, -1) of the two atoms of
    [bent_pair] has the projection -1, of magnitude 1, above the tolerance
    0.3; the scan takes the pair as a candidate all the same, for -1 < 0.3,
    and [_find_mirror] records the reflection through x = z and answers v. *)
Theorem mirror_candidate_with_large_projection :
  Qabs (dot (vsub (1, 0, 0) (0, 0, 1)) (0, 0, 1)) == 1
  /\ mirror_candidate (0, 0, 1) (3 # 10) (atom "X" 1 1 0 0) (atom "X" 1 0 0 1) = true
  /\ exists self,
       _find_mirror Ideal.ext (0, 0, 1) bent_pair_analyzer = Ok ("v"%string, self)
       /\ symmops self = [identity_op; Ideal.reflection (1, 0, -1)].
Proof.
  split; [vm_compute; reflexivity |].
  split; [vm_compute; reflexivity |].
  eexists. split; vm_compute; reflexivity.
Qed.

(** What the guard of the scan tests: the signed projection. *)
Lemma mirror_candidate_spec axis tol s1 s2 :
  mirror_candidate axis tol s1 s2 = true <->
  specie_eqb (specie s1) (specie s2) = true
  /\ dot (vsub (coords s1) (coords s2)) axis < tol.
Proof.
  unfold mirror_candidate. rewrite andb_true_iff, Qltb_lt. tauto.
Qed.

(** ** _proc_sym_top *)

(** C10: with the eigenvalue tolerance 1/8 the first two eigenvalues of
    [boundary_top] differ by the tolerance exactly.  The molecule is neither
    linear, spherical nor asymmetric for [_analyze], so [_proc_sym_top] runs;
    its loop finds no pair strictly within the tolerance, and the read of
    [unique_axis] raises. *)
Theorem symmetric_top_without_unique_axis :
  classify (1 # 2, 5 # 8, 7 # 8) (1 # 8) = SymmetricTop
  /\ unique_axis_index (1 # 2, 5 # 8, 7 # 8) (1 # 8) = None
  /\ Qabs ((1 # 2) - (5 # 8)) == 1 # 8
  /\ PointGroupAnalyzer Ideal.ext boundary_top (3 # 10) (1 # 8) (1 # 10)
     = Raise (UnboundLocalError "unique_axis").
Proof. repeat split; vm_compute; reflexivity. Qed.

(** Away from the boundary the loop does find its pair: when [_analyze]
    selects the symmetric-top procedure, two eigenvalues are within the
    tolerance, the tolerance itself included. *)
Lemma symmetric_top_pair_within v1 v2 v3 eps :
  classify (v1, v2, v3) eps = SymmetricTop ->
  Qabs (v1 - v2) <= eps \/ Qabs (v2 - v3) <= eps.
Proof.
  unfold classify.
  destruct (eig_zero _ _); [discriminate |].
  destruct (eig_all_same _ _); [discriminate |].
  destruct (eig_all_diff (v1, v2, v3) eps) eqn:Hdiff; [discriminate |]. intros _.
  unfold eig_all_diff, Qgtb in Hdiff. rewrite !andb_false_iff, !Qltb_ge in Hdiff.
  tauto.
Qed.

(** ** cluster_sites *)

(** Every list of a [defaultdict(list)] that was only appended to holds an
    element. *)
Lemma dict_append_nonempty {K V} (eqb : K -> K -> bool) (d : list (K * list V)) k x :
  Forall (fun c => snd c <> []) d ->
  Forall (fun c => snd c <> []) (dict_append eqb d k x).
Proof.
  induction d as [| [k' l] r IH]; intros H; simpl.
  - constructor; [discriminate | constructor].
  - inversion H; subst. destruct (eqb k' k); constructor; auto.
    simpl. destruct l; discriminate.
Qed.

Lemma append_by_avg_nonempty avg_dist f mol d d' :
  Forall (fun c => snd c <> []) d ->
  append_by_avg avg_dist f mol d = Ok d' ->
  Forall (fun c => snd c <> []) d'.
Proof.
  revert f d. induction mol as [| site mol IH]; intros f d Hd H; simpl in H.
  - inversion H; subst. exact Hd.
  - destruct f as [| l f]; [discriminate |].
    destruct (dict_get Nat.eqb avg_dist l); [| discriminate].
    apply (IH _ _ (dict_append_nonempty Qeq_bool d q site Hd) H).
Qed.

(** The dummy zeros are averaged in: for the rows [[d, 0]] of a cluster,
    [np.mean] gives the sum of the distances over twice their number, half
    their mean. *)
Lemma np_mean_dummy_zeros (ds : list Q) :
  np_mean (map (fun d => [d; 0]) ds)
  == Qsum ds / inject_Z (Z.of_nat (2 * List.length ds)).
Proof.
  unfold np_mean.
  assert (Hsum : Qsum (List.concat (map (fun d => [d; 0]) ds)) == Qsum ds).
  { induction ds as [| d r IH]; simpl; [reflexivity |]. rewrite IH. ring. }
  assert (Hlen : List.length (List.concat (map (fun d : Q => [d; 0]) ds))
                 = (2 * List.length ds)%nat).
  { clear Hsum. induction ds as [| d r IH]; [reflexivity |].
    cbn [map List.concat app List.length]. rewrite IH. lia. }
  rewrite Hsum, Hlen. reflexivity.
Qed.

(** C6: two atoms that one cluster holds, neither of them within the
    tolerance of the origin, whose distances from the origin add up to less
    than four times the tolerance, make [cluster_sites] raise the fatal
    error.  The key of their group is the mean over the rows [[d, 0]], a
    quarter of the sum of the two distances and so below the tolerance: the
    group is taken for atoms at the origin, though no atom lies within the
    tolerance of it. *)
Theorem cluster_sites_raises_with_no_atom_near ext s1 s2 atol label :
  fclusterdata ext (dists_of ext [s1; s2]) atol = Ok [label; label] ->
  atol <= norm ext (coords s1) ->
  atol <= norm ext (coords s2) ->
  (norm ext (coords s1) + norm ext (coords s2)) / 4 < atol ->
  near_origin ext atol [s1; s2] = []
  /\ (exists d, clustered_sites_of ext [s1; s2] atol = Ok [(d, [s1; s2])]
                /\ d == (norm ext (coords s1) + norm ext (coords s2)) / 4)
  /\ cluster_sites ext [s1; s2] atol = Raise (RuntimeError bad_molecule).
Proof.
  intros Hf H1 H2 Hsum.
  set (d1 := norm ext (coords s1)) in *. set (d2 := norm ext (coords s2)) in *.
  assert (Hmean : np_mean [[d1; 0]; [d2; 0]] == (d1 + d2) / 4).
  { rewrite (np_mean_dummy_zeros [d1; d2]). simpl. field. }
  assert (Hc : clustered_sites_of ext [s1; s2] atol
               = Ok [(np_mean [[d1; 0]; [d2; 0]], [s1; s2])]).
  { unfold clustered_sites_of. rewrite Hf. unfold dists_of. cbn [map].
    fold d1 d2. cbn [append_by_label dict_append]. rewrite Nat.eqb_refl.
    cbn [dict_append app map fst snd append_by_avg dict_get]. rewrite Nat.eqb_refl.
    cbn [dict_append]. rewrite (proj2 (Qeq_bool_iff _ _) (Qeq_refl _)). reflexivity. }
  split; [| split].
  - unfold near_origin. cbn [filter]. fold d1 d2.
    rewrite (proj2 (Qltb_ge d1 atol) H1), (proj2 (Qltb_ge d2 atol) H2). reflexivity.
  - eexists. split; [exact Hc | exact Hmean].
  - unfold cluster_sites. rewrite Hc. cbn [split_origin].
    assert (Hlt : Qltb (np_mean [[d1; 0]; [d2; 0]]) atol = true).
    { apply Qltb_lt. rewrite Hmean. exact Hsum. }
    rewrite Hlt. reflexivity.
Qed.

(** Two atoms of one species at the distance 0.37 from the origin, on either
    side of it, at the tolerance 0.3: the key of their group is 0.185. *)
Lemma cluster_sites_raises_with_no_atom_near_witness :
  near_origin Ideal.ext (3 # 10) far_pair = []
  /\ (exists d, clustered_sites_of Ideal.ext far_pair (3 # 10) = Ok [(d, far_pair)]
                /\ d == (norm Ideal.ext (coords (atom "X" 1 (37 # 100) 0 0))
                         + norm Ideal.ext (coords (atom "X" 1 (- (37 # 100)) 0 0))) / 4)
  /\ cluster_sites Ideal.ext far_pair (3 # 10) = Raise (RuntimeError bad_molecule).
Proof.
  apply (cluster_sites_raises_with_no_atom_near Ideal.ext
           (atom "X" 1 (37 # 100) 0 0) (atom "X" 1 (- (37 # 100)) 0 0) (3 # 10) 1%nat).
  - vm_compute. reflexivity.
  - apply Qle_bool_iff. vm_compute. reflexivity.
  - apply Qle_bool_iff. vm_compute. reflexivity.
  - apply Qltb_lt. vm_compute. reflexivity.
Defined.

(** The test is on the groups, not on the atoms: one atom of
    [off_centre_pair] lies within the tolerance of the origin and
    [cluster_sites] raises; two atoms of [chain_of_atoms] do and it
    returns. *)
Example cluster_sites_raises_with_one_atom_near :
  near_origin Ideal.ext (3 # 10) off_centre_pair = [atom "X" 1 (28 # 100) 0 0]
  /\ fclusterdata Ideal.ext (dists_of Ideal.ext off_centre_pair) (3 # 10) = Ok [1; 1]%nat
  /\ cluster_sites Ideal.ext off_centre_pair (3 # 10) = Raise (RuntimeError bad_molecule).
Proof. repeat split; vm_compute; reflexivity. Qed.

Example cluster_sites_returns_with_two_atoms_near :
  List.length (near_origin Ideal.ext (3 # 10) chain_of_atoms) = 2%nat
  /\ exists dist_el_sites,
       cluster_sites Ideal.ext chain_of_atoms (3 # 10) = Ok (None, dist_el_sites).
Proof. split; [vm_compute; reflexivity |]. eexists. vm_compute. reflexivity. Qed.

(** scipy refuses a single observation, and so does [cluster_sites] a
    molecule of one atom. *)
Example cluster_sites_of_one_atom :
  cluster_sites Ideal.ext [atom "H" 1 0 0 0] (3 # 10)
  = Raise (ValueError Ideal.no_observations).
Proof. reflexivity. Qed.

(** ** _check_rot_sym *)





Section RotationOrder.
Variable ext : Collaborators.

(** One turn of the loop of [_check_rot_sym]. *)
Lemma rot_sym_loop_cons axis max_sym i r self :
  rot_sym_loop ext axis max_sym (i :: r) self =
  if negb (max_sym mod i =? 0)%nat then rot_sym_loop ext axis max_sym r self
  else if is_valid_op (rotation ext axis i) (processed_mol self) (tol self)
       then Ok (i, append_rot_sym axis i (append_symmop (rotation ext axis i) self))
       else rot_sym_loop ext axis max_sym r self.
Proof.
  simpl. destruct (negb (max_sym mod i =? 0)%nat); [reflexivity |].
  unfold bind, get, valid, rotation, modify, ret.
  destruct (is_valid_op _ _ _); reflexivity.
Qed.



Lemma xrange_down_sorted max_sym :
  StronglySorted ge (xrange_down max_sym) /\ Forall (le 1) (xrange_down max_sym).
Proof.
  unfold xrange_down. split.
  - induction max_sym as [| m IH]; [constructor |].
    rewrite seq_S, rev_app_distr. simpl. constructor; [exact IH |].
    apply Forall_forall. intros j Hj. apply in_rev, in_seq in Hj. lia.
  - apply Forall_forall. intros j Hj. apply in_rev, in_seq in Hj. lia.
Qed.
End RotationOrder.




(** ** The known cases of the specification

    Runs of the whole analysis with the collaborators of [Ideal] and the
    default tolerances, on the two linear diatomics. *)

Example homonuclear_diatomic :
  symbol_of [atom "H" 1 0 0 1; atom "H" 1 0 0 (-1)] = Ok (Some "D*h"%string).
Proof. vm_compute. reflexivity. Qed.

Example heteronuclear_diatomic :
  symbol_of [atom "H" 1 0 0 1; atom "F" 19 0 0 (-1)] = Ok (Some "C*v"%string).
Proof. vm_compute. reflexivity. Qed.

(** * Further properties of the module *)

(** ** generate_full_symmops: what it adds *)

Lemma scan_of_closed gens atol : closed atol gens -> scan gens atol = (gens, true).
Proof.
  intros Hclosed. unfold scan.
  destruct (find _ _) as [[op1 op2] |] eqn:Hfind; [| reflexivity].
  apply find_some in Hfind. destruct Hfind as [Hin Hnew].
  apply in_prod_iff in Hin. destruct Hin as [H1 H2].
  rewrite (Hclosed op1 op2 H1 H2) in Hnew. discriminate.
Qed.

Lemma generate_full_symmops_of_closed gens atol :
  closed atol gens -> generate_full_symmops gens atol = gens.
Proof.
  intros Hclosed. rewrite generate_full_symmops_body, (scan_of_closed _ _ Hclosed).
  cbn [fst snd]. destruct (200 <? List.length gens)%nat; reflexivity.
Qed.

Lemma scan_built gens atol :
  exists added, fst (scan gens atol) = gens ++ added /\ built_from atol gens added.
Proof.
  unfold scan. destruct (find _ _) as [[op1 op2] |] eqn:Hfind.
  - apply find_some in Hfind. destruct Hfind as [Hin Hnew].
    apply in_prod_iff in Hin. destruct Hin as [H1 H2]. apply negb_true_iff in Hnew.
    eexists. split; [reflexivity |].
    apply built_cons; auto. constructor.
  - exists []. rewrite app_nil_r. split; [reflexivity | constructor].
Qed.

Lemma built_from_app atol ops added more :
  built_from atol ops added -> built_from atol (ops ++ added) more ->
  built_from atol ops (added ++ more).
Proof.
  intros H. revert more. induction H as [ops | ops op1 op2 added H1 H2 Hnew Hrest IH];
    intros more Hmore.
  - rewrite app_nil_r in Hmore. exact Hmore.
  - simpl. apply built_cons; auto. apply IH.
    rewrite <- app_assoc. exact Hmore.
Qed.

(** X1: a generating set that is already closed under composition, within the
    tolerance, is returned as it is, whatever its length. *)
Theorem generate_full_symmops_fixed gens atol :
  closed atol gens -> generate_full_symmops gens atol = gens.
Proof. apply generate_full_symmops_of_closed. Qed.

(** The identity and the inversion form a group. *)
Lemma generate_full_symmops_fixed_witness :
  generate_full_symmops [identity_op; Ideal.inversion_op] (1 # 10)
  = [identity_op; Ideal.inversion_op].
Proof.
  apply generate_full_symmops_fixed.
  intros op1 op2 [<- | [<- | []]] [<- | [<- | []]]; vm_compute; reflexivity.
Defined.

(** X2: the closure is idempotent under the ceiling: when the list returned
    has at most 200 operations, closing it again returns the same list. *)
Theorem generate_full_symmops_idempotent gens atol :
  (List.length (generate_full_symmops gens atol) <= 200)%nat ->
  generate_full_symmops (generate_full_symmops gens atol) atol
  = generate_full_symmops gens atol.
Proof.
  intros Hlen. apply generate_full_symmops_of_closed.
  apply generate_full_symmops_closed. exact Hlen.
Qed.

Lemma generate_full_symmops_idempotent_witness :
  generate_full_symmops (generate_full_symmops [quarter_turn_z] (1 # 10)) (1 # 10)
  = generate_full_symmops [quarter_turn_z] (1 # 10).
Proof.
  apply generate_full_symmops_idempotent.
  apply Nat.leb_le. vm_compute. reflexivity.
Defined.

(** X3: [generate_full_symmops] returns the operations given followed by
    operations it built: each added operation is the matrix product of two
    operations that stand before it in the result, and matched none of those
    before it when it was added. *)
Theorem generate_full_symmops_built gens atol :
  exists added,
    generate_full_symmops gens atol = gens ++ added /\ built_from atol gens added.
Proof.
  apply (generate_full_symmops_calls atol
           (fun g r => exists added, r = g ++ added /\ built_from atol g added)).
  - intros g _. apply scan_built.
  - intros g r _ _ [more [-> Hmore]].
    destruct (scan_built g atol) as [added [Heq Hadded]]. rewrite Heq in *.
    exists (added ++ more). split; [rewrite app_assoc; reflexivity |].
    apply built_from_app; assumption.
Qed.

(** ** _analyze: the inertia tensor *)

Lemma fold_left_invariant {A B} (P : B -> Prop) (f : B -> A -> B) (l : list A) (b : B) :
  P b -> (forall b a, P b -> P (f b a)) -> P (fold_left f l b).
Proof.
  intros Hb Hstep. revert b Hb. induction l as [| a l IH]; intros b Hb; simpl; auto.
Qed.

(** X4: the tensor that the loop of [_analyze] accumulates is symmetric.
    The two entries of each pair off the diagonal are the same value, not
    only close ones: the loop adds the same product to both at every site,
    in the same order, so that no law of arithmetic is called upon and
    rounding cannot tell them apart. *)
Theorem inertia_tensor_symmetric mol :
  let '((i00, i01, i02), (i10, i11, i12), (i20, i21, i22), total) := inertia_entries mol in
  i01 = i10 /\ i02 = i20 /\ i12 = i21.
Proof.
  unfold inertia_entries.
  apply (fold_left_invariant
           (fun acc : vec * vec * vec * Q =>
              let '((i00, i01, i02), (i10, i11, i12), (i20, i21, i22), total) := acc in
              i01 = i10 /\ i02 = i20 /\ i12 = i21)).
  - repeat split.
  - intros [[[[[i00 i01] i02] [[i10 i11] i12]] [[i20 i21] i22]] total] site.
    destruct (coords site) as [[x y] z].
    intros [H1 [H2 H3]]. subst. repeat split.
Qed.

(** ** The analyzer: what its procedures keep *)

Lemma same_setting_refl self : same_setting self self.
Proof. repeat split. Qed.

Lemma same_setting_trans a b c : same_setting a b -> same_setting b c -> same_setting a c.
Proof. unfold same_setting. intuition congruence. Qed.

Lemma valid_same_setting a b op : same_setting a b -> valid b op = valid a op.
Proof. unfold valid, same_setting. intros H. decompose [and] H. congruence. Qed.

Lemma extends_refl self : extends self self.
Proof.
  split; [apply same_setting_refl |].
  split; [exists [] | exists []]; rewrite app_nil_r; auto.
Qed.

Lemma extends_trans a b c : extends a b -> extends b c -> extends a c.
Proof.
  intros [Hs1 [[o1 [Ho1 Hv1]] [r1 Hr1]]] [Hs2 [[o2 [Ho2 Hv2]] [r2 Hr2]]].
  split; [eapply same_setting_trans; eauto |]. split.
  - exists (o1 ++ o2). split; [rewrite Ho2, Ho1, app_assoc; reflexivity |].
    apply Forall_app. split; [exact Hv1 |].
    eapply Forall_impl; [| exact Hv2]. intros op Hop.
    rewrite <- (valid_same_setting a b op Hs1). exact Hop.
  - exists (r1 ++ r2). rewrite Hr2, Hr1, app_assoc. reflexivity.
Qed.

Lemma extends_append_symmop self op :
  valid self op = true -> extends self (append_symmop op self).
Proof.
  intros Hop. split; [repeat split |]. split.
  - exists [op]. split; [reflexivity | constructor; auto].
  - exists []. simpl. rewrite app_nil_r. reflexivity.
Qed.

Lemma extends_append_rot_sym self axis n : extends self (append_rot_sym axis n self).
Proof.
  split; [repeat split |]. split.
  - exists []. simpl. rewrite app_nil_r. auto.
  - exists [(axis, n)]. reflexivity.
Qed.

Lemma extends_set_sch_symbol self s : extends self (set_sch_symbol s self).
Proof.
  split; [repeat split |]. split; [exists [] | exists []]; simpl; rewrite app_nil_r; auto.
Qed.

Lemma extends_record self op axis n :
  valid self op = true ->
  extends self (append_rot_sym axis n (append_symmop op self)).
Proof.
  intros Hop. eapply extends_trans; [apply extends_append_symmop; exact Hop |].
  apply extends_append_rot_sym.
Qed.

Lemma recorded_valid_extends a b : extends a b -> recorded_valid a -> recorded_valid b.
Proof.
  intros [Hs [[o [Ho Hv]] _]] [ops [Hops Hvalid]].
  exists (ops ++ o). split; [rewrite Ho, Hops; reflexivity |].
  apply Forall_app. split; eapply Forall_impl; try eassumption;
    intros op Hop; rewrite (valid_same_setting a b op Hs); exact Hop.
Qed.

(** The steps of a method. *)
Lemma bind_ok {A B} (m : M A) (k : A -> M B) self y self'' :
  bind m k self = Ok (y, self'') ->
  exists x self', m self = Ok (x, self') /\ k x self' = Ok (y, self'').
Proof.
  unfold bind. destruct (m self) as [[x self'] | e]; [eauto | discriminate].
Qed.

Lemma get_ok self x self' : get self = Ok (x, self') -> x = self /\ self' = self.
Proof. unfold get. intros H. inversion H. auto. Qed.

Lemma modify_ok f self x self' : modify f self = Ok (x, self') -> self' = f self.
Proof. unfold modify. intros H. inversion H. auto. Qed.

Lemma ret_ok {A} (a : A) self x self' : ret a self = Ok (x, self') -> x = a /\ self' = self.
Proof. unfold ret. intros H. inversion H. auto. Qed.

(** Takes a hypothesis [m self = Ok (x, self')] apart along the binds, reads
    and updates of [m]. *)
Ltac steps H :=
  cbv beta iota in H;
  repeat (match type of H with
    | bind get _ _ = Ok _ =>
        let x := fresh "s" in let s := fresh "s" in
        let Hg := fresh "Hget" in
        apply bind_ok in H; destruct H as (x & s & Hg & H);
        apply get_ok in Hg; destruct Hg; subst x s
    | bind (modify _) _ _ = Ok _ =>
        let x := fresh "u" in let s := fresh "s" in
        let Hm := fresh "Hmod" in
        apply bind_ok in H; destruct H as (x & s & Hm & H);
        apply modify_ok in Hm; subst s
    | modify _ _ = Ok _ => apply modify_ok in H; subst
    | ret _ _ = Ok _ => apply ret_ok in H; destruct H; subst
    | Ok _ = Ok _ => inversion H; subst; clear H
    | Raise _ = Ok _ => discriminate H
    | raise _ _ = Ok _ => discriminate H
    end; try cbv beta iota in H).

Section Keeps.
Variable ext : Collaborators.

Lemma mirror_pair_valid self axis s1 s2 :
  mirror_pair ext self axis = Some (s1, s2) ->
  valid self (reflection ext (vsub (coords s1) (coords s2))) = true
  /\ mirror_candidate axis (tol self) s1 s2 = true
  /\ In (s1, s2) (combinations2 (processed_mol self)).
Proof.
  unfold mirror_pair. intros H. apply find_some in H. cbn [fst snd] in H.
  destruct H as [Hin H]. apply andb_true_iff in H. tauto.
Qed.

(** What [_find_mirror] does to the analyzer. *)
Lemma _find_mirror_keeps axis self mirror_type self' :
  _find_mirror ext axis self = Ok (mirror_type, self') ->
  extends self self'
  /\ rot_sym self' = rot_sym self
  /\ sch_symbol self' = sch_symbol self
  /\ In mirror_type [""; "h"; "v"; "d"]%string
  /\ (mirror_type = ""%string -> symmops self' = symmops self)
  /\ (mirror_type <> ""%string ->
      exists op, symmops self' = symmops self ++ [op] /\ valid self op = true).
Proof.
  unfold _find_mirror. intros H.
  destruct (valid self (reflection ext axis)) eqn:Hh.
  - inversion H; subst; clear H.
    split; [apply extends_append_symmop; exact Hh |].
    repeat split; simpl; auto; try discriminate. intros _. eauto.
  - destruct (mirror_pair ext self axis) as [[s1 s2] |] eqn:Hpair.
    + apply mirror_pair_valid in Hpair. destruct Hpair as [Hv _].
      cbv zeta in H.
      set (self1 := append_symmop (reflection ext (vsub (coords s1) (coords s2))) self) in *.
      assert (Hmt : (mirror_type = "v" \/ mirror_type = "d")%string /\ self' = self1).
      { destruct (1 <? List.length _)%nat; [destruct (existsb _ _) |];
          inversion H; auto. }
      destruct Hmt as [Hmt ->].
      split; [apply extends_append_symmop; exact Hv |].
      split; [reflexivity |]. split; [reflexivity |].
      split; [destruct Hmt as [-> | ->]; simpl; auto |].
      split; [intros E; destruct Hmt; congruence |].
      intros _. eexists. split; [reflexivity | exact Hv].
    + inversion H; subst; clear H.
      split; [apply extends_refl |]. repeat split; simpl; auto. intros E. congruence.
Qed.

Lemma _find_mirror_returns axis self :
  exists mirror_type self', _find_mirror ext axis self = Ok (mirror_type, self').
Proof.
  unfold _find_mirror.
  destruct (valid self (reflection ext axis)); [eauto |].
  destruct (mirror_pair ext self axis) as [[s1 s2] |]; [| eauto].
  cbv zeta. destruct (1 <? List.length _)%nat; [destruct (existsb _ _) |]; eauto.
Qed.

Lemma first_mirror_keeps axes self u self' :
  first_mirror ext axes self = Ok (u, self') ->
  extends self self'
  /\ rot_sym self' = rot_sym self
  /\ (sch_symbol self' = sch_symbol self \/ sch_symbol self' = Some "Cs"%string).
Proof.
  revert self. induction axes as [| v r IH]; intros self H; simpl in H.
  - steps H. split; [apply extends_refl | auto].
  - apply bind_ok in H. destruct H as (mt & s1 & Hm & H).
    apply _find_mirror_keeps in Hm. destruct Hm as (He & Hr & Hs & _).
    destruct (negb (String.eqb mt "")).
    + steps H.
      split; [eapply extends_trans; [exact He | apply extends_set_sch_symbol] |].
      split; [exact Hr | right; reflexivity].
    + apply IH in H. destruct H as (He' & Hr' & Hs').
      split; [eapply extends_trans; [exact He | exact He'] |].
      split; [congruence |]. destruct Hs' as [Hs' | Hs']; [left; congruence | right; exact Hs'].
Qed.

Lemma first_mirror_returns axes self :
  exists u self', first_mirror ext axes self = Ok (u, self').
Proof.
  revert self. induction axes as [| v r IH]; intros self; simpl.
  - unfold ret. eauto.
  - unfold bind. destruct (_find_mirror_returns v self) as (mt & s1 & ->).
    destruct (negb (String.eqb mt "")); [unfold modify; eauto | apply IH].
Qed.

(** What [_proc_no_rot_sym] does: one of three symbols, and no exception. *)
Lemma _proc_no_rot_sym_keeps self :
  exists u self',
    _proc_no_rot_sym ext self = Ok (u, self')
    /\ extends self self'
    /\ rot_sym self' = rot_sym self
    /\ In (sch_symbol self') [Some "C1"; Some "Ci"; Some "Cs"]%string.
Proof.
  unfold _proc_no_rot_sym. unfold bind at 1, modify at 1. unfold bind at 1, get.
  set (s1 := set_sch_symbol "C1" self).
  assert (E1 : extends self s1) by apply extends_set_sch_symbol.
  destruct (valid s1 (inversion_op ext)) eqn:Hinv.
  - unfold bind, modify. eexists tt, _. split; [reflexivity |].
    split; [| split; [reflexivity | simpl; auto]].
    eapply extends_trans; [exact E1 |].
    eapply extends_trans; [apply extends_set_sch_symbol |].
    apply extends_append_symmop. exact Hinv.
  - destruct (first_mirror_returns (axes_list (principal_axes s1)) s1) as (u & s2 & H).
    exists u, s2. split; [exact H |].
    apply first_mirror_keeps in H. destruct H as (He & Hr & Hs).
    split; [eapply extends_trans; [exact E1 | exact He] |]. split; [exact Hr |].
    destruct Hs as [-> | ->]; simpl; auto.
Qed.

(** What [_proc_linear] does: one of two symbols, the operations of the
    symbol, and no exception. *)
Lemma _proc_linear_keeps self :
  exists self',
    _proc_linear ext self = Ok (tt, self')
    /\ same_setting self self'
    /\ rot_sym self' = rot_sym self
    /\ ((valid self (inversion_op ext) = true
         /\ sch_symbol self' = Some "D*h"%string
         /\ symmops self' = [identity_op; inversion_op ext])
        \/ (valid self (inversion_op ext) = false
            /\ sch_symbol self' = Some "C*v"%string
            /\ symmops self' = [identity_op])).
Proof.
  unfold _proc_linear. destruct (valid self (inversion_op ext)) eqn:Hinv;
    eexists; (split; [reflexivity |]); repeat split; auto.
Qed.

Lemma max_by_in {A} (key : A -> nat) (l : list A) x :
  max_by key l = Some x -> In x l /\ forall y, In y l -> (key y <= key x)%nat.
Proof.
  revert x. induction l as [| a r IH]; intros x H; simpl in H; [discriminate |].
  destruct (max_by key r) as [y |] eqn:Hr.
  - destruct (IH y eq_refl) as [Hin Hmax].
    destruct (key a <? key y)%nat eqn:Hlt; inversion H; subst; clear H.
    + split; [right; exact Hin |]. intros z [<- | Hz]; [| auto].
      apply Nat.ltb_lt in Hlt. lia.
    + apply Nat.ltb_ge in Hlt. split; [left; reflexivity |].
      intros z [<- | Hz]; [lia |]. specialize (Hmax z Hz). lia.
  - inversion H; subst; clear H.
    assert (r = []) as ->.
    { destruct r as [| b r]; [reflexivity |]. simpl in Hr.
      destruct (max_by key r) as [c |]; [destruct (key b <? key c)%nat |]; discriminate. }
    split; [left; reflexivity |]. intros z [<- | []]. lia.
Qed.

Lemma max_rot_sym_ok self r self' :
  max_rot_sym self = Ok (r, self') ->
  self' = self /\ max_by snd (rot_sym self) = Some r.
Proof.
  unfold max_rot_sym. destruct (max_by snd (rot_sym self)); intros H; inversion H; auto.
Qed.

Lemma extend_sch_symbol_ok suffix self u self' :
  extend_sch_symbol suffix self = Ok (u, self') ->
  exists s, sch_symbol self = Some s /\ self' = set_sch_symbol (s ++ suffix) self.
Proof.
  unfold extend_sch_symbol. destruct (sch_symbol self) as [s |]; intros H; inversion H.
  eauto.
Qed.

(** What [_proc_cyclic] does: a symbol made from the highest order recorded. *)
Lemma _proc_cyclic_keeps self u self' :
  _proc_cyclic ext self = Ok (u, self') ->
  extends self self'
  /\ rot_sym self' = rot_sym self
  /\ exists main_axis rot,
       max_by snd (rot_sym self) = Some (main_axis, rot)
       /\ In (sch_symbol self')
             [Some ("C" ++ str rot); Some ("C" ++ str rot ++ "h");
              Some ("C" ++ str rot ++ "v"); Some ("S" ++ str (2 * rot))]%string.
Proof.
  unfold _proc_cyclic. intros H.
  apply bind_ok in H. destruct H as ([main_axis rot] & s0 & Hmax & H).
  apply max_rot_sym_ok in Hmax. destruct Hmax as [-> Hmax].
  steps H. set (s1 := set_sch_symbol ("C" ++ str rot) self) in *.
  apply bind_ok in H. destruct H as (mt & s2 & Hm & H).
  apply _find_mirror_keeps in Hm. destruct Hm as (He & Hr & Hs & _).
  assert (E2 : extends self s2)
    by (eapply extends_trans; [apply extends_set_sch_symbol | exact He]).
  assert (Hsym : sch_symbol s2 = Some ("C" ++ str rot)%string) by (rewrite Hs; reflexivity).
  assert (Hrot : rot_sym s2 = rot_sym self) by (rewrite Hr; reflexivity).
  assert (Hsuffix : forall suffix u self',
             extend_sch_symbol suffix s2 = Ok (u, self') ->
             extends self self' /\ rot_sym self' = rot_sym self
             /\ sch_symbol self' = Some (("C" ++ str rot) ++ suffix)%string).
  { intros suffix ? s3 Hx. apply extend_sch_symbol_ok in Hx.
    destruct Hx as (s & Hs2 & ->). rewrite Hsym in Hs2. inversion Hs2; subst.
    split; [eapply extends_trans; [exact E2 | apply extends_set_sch_symbol] |].
    split; [exact Hrot | reflexivity]. }
  destruct (String.eqb mt "h");
    [| destruct (String.eqb mt "v"); [| destruct (String.eqb mt "")]].
  - apply Hsuffix in H. destruct H as (E & R & S).
    split; [exact E |]. split; [exact R |]. exists main_axis, rot.
    split; [exact Hmax |]. rewrite S. simpl. auto.
  - apply Hsuffix in H. destruct H as (E & R & S).
    split; [exact E |]. split; [exact R |]. exists main_axis, rot.
    split; [exact Hmax |]. rewrite S. simpl. auto.
  - steps H. destruct (valid s2 _).
    + steps H.
      split; [eapply extends_trans; [exact E2 | apply extends_set_sch_symbol] |].
      split; [exact Hrot |]. exists main_axis, rot. split; [exact Hmax |]. simpl. auto.
    + steps H. split; [exact E2 |]. split; [exact Hrot |].
      exists main_axis, rot. split; [exact Hmax |]. rewrite Hsym. simpl. auto.
  - steps H. split; [exact E2 |]. split; [exact Hrot |].
    exists main_axis, rot. split; [exact Hmax |]. rewrite Hsym. simpl. auto.
Qed.

(** What [_proc_dihedral] does. *)
Lemma _proc_dihedral_keeps self u self' :
  _proc_dihedral ext self = Ok (u, self') ->
  extends self self'
  /\ rot_sym self' = rot_sym self
  /\ exists main_axis rot,
       max_by snd (rot_sym self) = Some (main_axis, rot)
       /\ In (sch_symbol self')
             [Some ("D" ++ str rot); Some ("D" ++ str rot ++ "h");
              Some ("D" ++ str rot ++ "d")]%string.
Proof.
  unfold _proc_dihedral. intros H.
  apply bind_ok in H. destruct H as ([main_axis rot] & s0 & Hmax & H).
  apply max_rot_sym_ok in Hmax. destruct Hmax as [-> Hmax].
  steps H. set (s1 := set_sch_symbol ("D" ++ str rot) self) in *.
  apply bind_ok in H. destruct H as (mt & s2 & Hm & H).
  apply _find_mirror_keeps in Hm. destruct Hm as (He & Hr & Hs & _).
  assert (E2 : extends self s2)
    by (eapply extends_trans; [apply extends_set_sch_symbol | exact He]).
  assert (Hsym : sch_symbol s2 = Some ("D" ++ str rot)%string) by (rewrite Hs; reflexivity).
  assert (Hrot : rot_sym s2 = rot_sym self) by (rewrite Hr; reflexivity).
  assert (Hsuffix : forall suffix u self',
             extend_sch_symbol suffix s2 = Ok (u, self') ->
             extends self self' /\ rot_sym self' = rot_sym self
             /\ sch_symbol self' = Some (("D" ++ str rot) ++ suffix)%string).
  { intros suffix ? s3 Hx. apply extend_sch_symbol_ok in Hx.
    destruct Hx as (s & Hs2 & ->). rewrite Hsym in Hs2. inversion Hs2; subst.
    split; [eapply extends_trans; [exact E2 | apply extends_set_sch_symbol] |].
    split; [exact Hrot | reflexivity]. }
  destruct (String.eqb mt "h"); [| destruct (negb (String.eqb mt ""))].
  - apply Hsuffix in H. destruct H as (E & R & S).
    split; [exact E |]. split; [exact R |]. exists main_axis, rot.
    split; [exact Hmax |]. rewrite S. simpl. auto.
  - apply Hsuffix in H. destruct H as (E & R & S).
    split; [exact E |]. split; [exact R |]. exists main_axis, rot.
    split; [exact Hmax |]. rewrite S. simpl. auto.
  - steps H. split; [exact E2 |]. split; [exact Hrot |].
    exists main_axis, rot. split; [exact Hmax |]. rewrite Hsym. simpl. auto.
Qed.

Lemma records_refl P self : records P self self.
Proof.
  split; [apply extends_refl |]. split; [reflexivity |].
  exists []. rewrite app_nil_r. auto.
Qed.

Lemma records_trans P a b c : records P a b -> records P b c -> records P a c.
Proof.
  intros (E1 & S1 & r1 & R1 & F1) (E2 & S2 & r2 & R2 & F2).
  split; [eapply extends_trans; [exact E1 | exact E2] |]. split; [congruence |].
  exists (r1 ++ r2). split; [rewrite R2, R1, app_assoc; reflexivity |].
  apply Forall_app. auto.
Qed.

Lemma records_one (P : nat -> Prop) self op axis n :
  valid self op = true -> P n ->
  records P self (append_rot_sym axis n (append_symmop op self)).
Proof.
  intros Hop Hn. split; [apply extends_record; exact Hop |]. split; [reflexivity |].
  exists [(axis, n)]. split; [reflexivity | constructor; auto].
Qed.

Lemma records_weaken (P Q : nat -> Prop) a b :
  (forall n, P n -> Q n) -> records P a b -> records Q a b.
Proof.
  intros HPQ (E & S & rs & R & F). split; [exact E |]. split; [exact S |].
  exists rs. split; [exact R |]. eapply Forall_impl; [| exact F]. intros r. apply HPQ.
Qed.

Lemma for_each_keeps {A} (R : Analyzer -> Analyzer -> Prop) (l : list A) (body : A -> M unit) :
  (forall s, R s s) -> (forall a b c, R a b -> R b c -> R a c) ->
  (forall x s, exists s', body x s = Ok (tt, s') /\ R s s') ->
  forall self, exists self', for_each l body self = Ok (tt, self') /\ R self self'.
Proof.
  intros Hrefl Htrans Hbody. induction l as [| x l IH]; intros self; simpl.
  - exists self. split; [reflexivity | apply Hrefl].
  - unfold bind. destruct (Hbody x self) as (s1 & -> & R1).
    destruct (IH s1) as (s2 & H2 & R2). exists s2. split; [exact H2 |].
    eapply Htrans; eauto.
Qed.

(** What [_check_R2_axes_asym] does: it records rotations of order 2 only,
    and raises nothing. *)
Lemma _check_R2_axes_asym_keeps self :
  exists self',
    _check_R2_axes_asym ext self = Ok (tt, self') /\ records (eq 2%nat) self self'.
Proof.
  unfold _check_R2_axes_asym. unfold bind at 1, get.
  apply for_each_keeps.
  - apply records_refl.
  - apply records_trans.
  - intros v s. cbv zeta. unfold bind at 1, get.
    destruct (valid s (from_origin_axis_angle ext origin v 180)) eqn:Hv.
    + eexists. split; [reflexivity |]. apply records_one; auto.
    + exists s. split; [reflexivity | apply records_refl].
Qed.

Lemma max_by_some {A} (key : A -> nat) (l : list A) :
  l <> [] -> exists x, max_by key l = Some x.
Proof.
  destruct l as [| a r]; [congruence |]. intros _. simpl.
  destruct (max_by key r) as [y |]; [destruct (key a <? key y)%nat |]; eauto.
Qed.

Lemma _proc_cyclic_returns self :
  rot_sym self <> [] -> exists u self', _proc_cyclic ext self = Ok (u, self').
Proof.
  intros Hne. unfold _proc_cyclic. unfold bind at 1, max_rot_sym.
  destruct (max_by_some snd (rot_sym self) Hne) as [[main_axis rot] ->].
  unfold bind at 1, modify at 1. unfold bind at 1.
  destruct (_find_mirror_returns main_axis (set_sch_symbol ("C" ++ str rot) self))
    as (mt & s2 & Hm).
  rewrite Hm. apply _find_mirror_keeps in Hm. destruct Hm as (_ & _ & Hs & _).
  assert (Hx : forall suffix, exists u self', extend_sch_symbol suffix s2 = Ok (u, self')).
  { intros suffix. unfold extend_sch_symbol. rewrite Hs. simpl. eauto. }
  destruct (String.eqb mt "h"); [apply Hx |].
  destruct (String.eqb mt "v"); [apply Hx |].
  destruct (String.eqb mt ""); [| unfold ret; eauto].
  unfold bind, get. destruct (valid s2 _); [unfold modify | unfold ret]; eauto.
Qed.

Lemma _proc_dihedral_returns self :
  rot_sym self <> [] -> exists u self', _proc_dihedral ext self = Ok (u, self').
Proof.
  intros Hne. unfold _proc_dihedral. unfold bind at 1, max_rot_sym.
  destruct (max_by_some snd (rot_sym self) Hne) as [[main_axis rot] ->].
  unfold bind at 1, modify at 1. unfold bind at 1.
  destruct (_find_mirror_returns main_axis (set_sch_symbol ("D" ++ str rot) self))
    as (mt & s2 & Hm).
  rewrite Hm. apply _find_mirror_keeps in Hm. destruct Hm as (_ & _ & Hs & _).
  assert (Hx : forall suffix, exists u self', extend_sch_symbol suffix s2 = Ok (u, self')).
  { intros suffix. unfold extend_sch_symbol. rewrite Hs. simpl. eauto. }
  destruct (String.eqb mt "h"); [apply Hx |].
  destruct (negb (String.eqb mt "")); [apply Hx | unfold ret; eauto].
Qed.

Lemma _proc_asym_top_keeps self :
  rot_sym self = [] ->
  exists u self',
    _proc_asym_top ext self = Ok (u, self')
    /\ extends self self'
    /\ In (sch_symbol self')
          (map Some ["C1"; "Ci"; "Cs"; "D2"; "D2h"; "D2d"; "C2"; "C2h"; "C2v"; "S4"]%string).
Proof.
  intros Hnil. unfold _proc_asym_top. unfold bind at 1.
  destruct (_check_R2_axes_asym_keeps self) as (s1 & -> & E1 & _ & rs & Hrs & Hall).
  rewrite Hnil in Hrs. simpl in Hrs. unfold bind at 1, get.
  assert (Hmax : forall main_axis rot,
             max_by snd (rot_sym s1) = Some (main_axis, rot) -> rot = 2%nat).
  { intros main_axis rot Hm. apply max_by_in in Hm. destruct Hm as [Hin _].
    rewrite Hrs in Hin. rewrite Forall_forall in Hall. symmetry. exact (Hall _ Hin). }
  destruct (List.length (rot_sym s1) =? 0)%nat eqn:H0.
  - destruct (_proc_no_rot_sym_keeps s1) as (u & s2 & H & E2 & _ & Hsym).
    exists u, s2. split; [exact H |].
    split; [eapply extends_trans; [exact E1 | exact E2] |].
    simpl in *. intuition.
  - assert (Hne : rot_sym s1 <> []).
    { apply Nat.eqb_neq in H0. intros E. rewrite E in H0. simpl in H0. lia. }
    destruct (List.length (rot_sym s1) =? 3)%nat.
    + destruct (_proc_dihedral_returns s1 Hne) as (u & s2 & H).
      exists u, s2. split; [exact H |]. apply _proc_dihedral_keeps in H.
      destruct H as (E2 & _ & main_axis & rot & Hm & Hsym).
      split; [eapply extends_trans; [exact E1 | exact E2] |].
      rewrite (Hmax _ _ Hm) in Hsym. simpl in *. intuition.
    + destruct (_proc_cyclic_returns s1 Hne) as (u & s2 & H).
      exists u, s2. split; [exact H |]. apply _proc_cyclic_keeps in H.
      destruct H as (E2 & _ & main_axis & rot & Hm & Hsym).
      split; [eapply extends_trans; [exact E1 | exact E2] |].
      rewrite (Hmax _ _ Hm) in Hsym. simpl in *. intuition.
Qed.

Lemma min_by_in {A} (key : A -> nat) (l : list A) x :
  min_by key l = Some x -> In x l /\ forall y, In y l -> (key x <= key y)%nat.
Proof.
  revert x. induction l as [| a r IH]; intros x H; simpl in H; [discriminate |].
  destruct (min_by key r) as [y |] eqn:Hr.
  - destruct (IH y eq_refl) as [Hin Hmin].
    destruct (key y <? key a)%nat eqn:Hlt; inversion H; subst; clear H.
    + split; [right; exact Hin |]. intros z [<- | Hz]; [| auto].
      apply Nat.ltb_lt in Hlt. lia.
    + apply Nat.ltb_ge in Hlt. split; [left; reflexivity |].
      intros z [<- | Hz]; [lia |]. specialize (Hmin z Hz). lia.
  - inversion H; subst; clear H.
    assert (r = []) as ->.
    { destruct r as [| b r]; [reflexivity |]. simpl in Hr.
      destruct (min_by key r) as [c |]; [destruct (key c <? key b)%nat |]; discriminate. }
    split; [left; reflexivity |]. intros z [<- | []]. lia.
Qed.

(** What [_get_smallest_set_not_on_axis] returns: a class of
    [cluster_sites], without its sites on the axis, that is not empty, and no
    larger than any other such class; the analyzer is left as it is. *)
Lemma _get_smallest_set_not_on_axis_ok axis self min_set self' :
  _get_smallest_set_not_on_axis ext axis self = Ok (min_set, self') ->
  self' = self
  /\ min_set <> []
  /\ Forall (fun site => not_on_axis ext (tol self) axis site = true) min_set
  /\ exists origin_site dist_el_sites,
       cluster_sites ext (processed_mol self) (tol self) = Ok (origin_site, dist_el_sites)
       /\ (exists key class, In (key, class) dist_el_sites
                             /\ min_set = filter (not_on_axis ext (tol self) axis) class)
       /\ forall key class,
           In (key, class) dist_el_sites ->
           filter (not_on_axis ext (tol self) axis) class <> [] ->
           (List.length min_set
            <= List.length (filter (not_on_axis ext (tol self) axis) class))%nat.
Proof.
  unfold _get_smallest_set_not_on_axis. intros H.
  destruct (cluster_sites ext (processed_mol self) (tol self))
    as [[origin_site dist_el_sites] | e] eqn:Hc; [| discriminate].
  destruct (min_by _ _) as [s |] eqn:Hmin; [| discriminate].
  inversion H; subst; clear H. apply min_by_in in Hmin. destruct Hmin as [Hin Hmin].
  apply filter_In in Hin. destruct Hin as [Hin Hlen]. apply Nat.ltb_lt in Hlen.
  apply in_map_iff in Hin. destruct Hin as [[key class] [Heq Hin]]. cbn [snd] in Heq.
  split; [reflexivity |].
  split; [intros E; rewrite E in Hlen; simpl in Hlen; lia |].
  split.
  - rewrite <- Heq. apply Forall_forall. intros site Hs. apply filter_In in Hs. tauto.
  - exists origin_site, dist_el_sites. split; [reflexivity |].
    split; [exists key, class; auto |].
    intros key' class' Hin' Hne. apply Hmin. apply filter_In. split.
    + apply in_map_iff. exists (key', class'). auto.
    + apply Nat.ltb_lt. destruct (filter _ class'); [congruence | simpl; lia].
Qed.

Lemma rot_sym_loop_keeps axis max_sym orders self n self' :
  rot_sym_loop ext axis max_sym orders self = Ok (n, self') ->
  records (fun _ => True) self self'.
Proof.
  revert self. induction orders as [| i r IH]; intros self H.
  - simpl in H. steps H. apply records_refl.
  - rewrite rot_sym_loop_cons in H.
    destruct (negb (max_sym mod i =? 0)%nat); [apply IH; exact H |].
    destruct (is_valid_op _ _ _) eqn:Hv; [| apply IH; exact H].
    inversion H; subst; clear H. apply records_one; auto.
Qed.

Lemma _check_rot_sym_keeps axis self n self' :
  _check_rot_sym ext axis self = Ok (n, self') -> records (fun _ => True) self self'.
Proof.
  unfold _check_rot_sym. intros H.
  apply bind_ok in H. destruct H as (min_set & s1 & Hmin & H).
  apply _get_smallest_set_not_on_axis_ok in Hmin. destruct Hmin as [-> _].
  eapply rot_sym_loop_keeps. exact H.
Qed.

Lemma _check_perpendicular_r2_axis_keeps axis self b self' :
  _check_perpendicular_r2_axis ext axis self = Ok (b, self') ->
  records (fun _ => True) self self'.
Proof.
  unfold _check_perpendicular_r2_axis. intros H.
  apply bind_ok in H. destruct H as (min_set & s1 & Hmin & H).
  apply _get_smallest_set_not_on_axis_ok in Hmin. destruct Hmin as [-> _].
  steps H. destruct (find _ _) as [p |] eqn:Hfind.
  - apply find_some in Hfind. destruct Hfind as [_ Hp].
    apply andb_true_iff in Hp. destruct Hp as [_ Hv].
    steps H. apply records_one; auto.
  - steps H. apply records_refl.
Qed.

Lemma assigned_in self (l : list string) : In (sch_symbol self) (map Some l) -> assigned self.
Proof.
  intros H E. unfold assigned in *. rewrite E in H.
  apply in_map_iff in H. destruct H as [x [Hx _]]. discriminate.
Qed.

(** What [_proc_sym_top] does when it returns. *)
Lemma _proc_sym_top_keeps self u self' :
  _proc_sym_top ext self = Ok (u, self') -> extends self self' /\ assigned self'.
Proof.
  unfold _proc_sym_top. intros H. steps H.
  destruct (unique_axis_index _ _) as [ind |]; [| discriminate].
  cbv zeta in H.
  apply bind_ok in H. destruct H as (n & s1 & H1 & H).
  apply _check_rot_sym_keeps in H1. destruct H1 as (E1 & _).
  steps H. apply bind_ok in H. destruct H as (u1 & s2 & H2 & H).
  assert (E2 : extends s1 s2).
  { destruct (0 <? List.length (rot_sym s1))%nat.
    - apply bind_ok in H2. destruct H2 as (b & s3 & H2 & H3).
      apply _check_perpendicular_r2_axis_keeps in H2. destruct H2 as (E & _).
      steps H3. exact E.
    - steps H2. apply extends_refl. }
  assert (E12 : extends self s2) by (eapply extends_trans; [exact E1 | exact E2]).
  steps H.
  destruct (2 <=? List.length (rot_sym s2))%nat;
    [| destruct (List.length (rot_sym s2) =? 1)%nat].
  - apply _proc_dihedral_keeps in H. destruct H as (E & _ & ? & ? & _ & Hsym).
    split; [eapply extends_trans; [exact E12 | exact E] |].
    eapply (assigned_in _ [_; _; _]). exact Hsym.
  - apply _proc_cyclic_keeps in H. destruct H as (E & _ & ? & ? & _ & Hsym).
    split; [eapply extends_trans; [exact E12 | exact E] |].
    eapply (assigned_in _ [_; _; _; _]). exact Hsym.
  - destruct (_proc_no_rot_sym_keeps s2) as (u' & s3 & H' & E & _ & Hsym).
    rewrite H' in H. inversion H; subst.
    split; [eapply extends_trans; [exact E12 | exact E] |].
    eapply (assigned_in _ [_; _; _]). exact Hsym.
Qed.

Lemma _get_smallest_sym_set_ok self test_set self' :
  _get_smallest_sym_set ext self = Ok (test_set, self') -> self' = self.
Proof.
  unfold _get_smallest_sym_set.
  destruct (cluster_sites _ _ _) as [[o d] | e]; [| discriminate].
  destruct (min_by _ _); intros H; inversion H. reflexivity.
Qed.

Lemma try_r2_keeps test_axis rot_present self rp self' :
  try_r2 ext test_axis rot_present self = Ok (rp, self') ->
  records spherical_order self self'.
Proof.
  unfold try_r2. intros H. steps H.
  destruct (Qgtb _ _); [| steps H; apply records_refl].
  cbv zeta in H. destruct (valid self _) eqn:Hv.
  - steps H. apply records_one; [exact Hv | unfold spherical_order; lia].
  - steps H. apply records_refl.
Qed.

Lemma try_orders_keeps test_axis orders rot_present self rp self' :
  Forall spherical_order orders ->
  try_orders ext test_axis orders rot_present self = Ok (rp, self') ->
  records spherical_order self self'.
Proof.
  intros Hall. revert rot_present self.
  induction Hall as [| r rest Hr Hrest IH]; intros rot_present self H; simpl in H.
  - steps H. apply records_refl.
  - destruct (negb (rot_present r)); [| apply IH in H; exact H].
    steps H. cbv zeta in H. destruct (valid self _) eqn:Hv.
    + steps H. apply records_one; auto.
    + apply IH in H. exact H.
Qed.

Lemma spherical_loop_keeps triples rot_present self u self' :
  spherical_loop ext triples rot_present self = Ok (u, self') ->
  records spherical_order self self'.
Proof.
  revert rot_present self. induction triples as [| [[s1 s2] s3] rest IH];
    intros rot_present self H; cbn [spherical_loop] in H.
  - steps H. apply records_refl.
  - apply bind_ok in H. destruct H as (rp1 & a & H1 & H).
    assert (R1 : records spherical_order self a).
    { destruct (negb (rot_present 2%nat)); [eapply try_r2_keeps; exact H1 |].
      steps H1. apply records_refl. }
    apply bind_ok in H. destruct H as (rp2 & b & H2 & H).
    assert (R2 : records spherical_order a b).
    { destruct (negb (rp1 2%nat)); [eapply try_r2_keeps; exact H2 |].
      steps H2. apply records_refl. }
    cbv zeta in H. steps H.
    apply bind_ok in H. destruct H as (rp3 & c & H3 & H).
    assert (R3 : records spherical_order b c).
    { destruct (Qgtb _ _); [| steps H3; apply records_refl].
      eapply try_orders_keeps; [| exact H3].
      repeat constructor; unfold spherical_order; lia. }
    assert (R : records spherical_order self c).
    { eapply records_trans; [exact R1 |]. eapply records_trans; [exact R2 | exact R3]. }
    destruct (rp3 2%nat && rp3 2%nat && (rp3 4%nat || rp3 5%nat)).
    + steps H. exact R.
    + apply IH in H. eapply records_trans; [exact R | exact H].
Qed.

(** What [_find_spherical_axes] does: it records valid operations, and
    rotations of the orders 2, 3, 4 and 5 only. *)
Lemma _find_spherical_axes_keeps self u self' :
  _find_spherical_axes ext self = Ok (u, self') -> records spherical_order self self'.
Proof.
  unfold _find_spherical_axes. intros H.
  apply bind_ok in H. destruct H as (test_set & s1 & H1 & H).
  apply _get_smallest_sym_set_ok in H1. subst s1.
  eapply spherical_loop_keeps. exact H.
Qed.

Lemma by_inversion_keeps yes no self u self' :
  by_inversion ext yes no self = Ok (u, self') -> extends self self' /\ assigned self'.
Proof.
  unfold by_inversion. intros H. steps H.
  destruct (valid self (inversion_op ext)) eqn:Hv; steps H.
  - split; [| discriminate].
    eapply extends_trans; [apply extends_append_symmop; exact Hv |].
    apply extends_set_sch_symbol.
  - split; [apply extends_set_sch_symbol | discriminate].
Qed.

(** What [_proc_sph_top] does when it returns, from no rotation recorded. *)
Lemma _proc_sph_top_keeps self u self' :
  rot_sym self = [] ->
  _proc_sph_top ext self = Ok (u, self') -> extends self self' /\ assigned self'.
Proof.
  intros Hnil. unfold _proc_sph_top. intros H.
  apply bind_ok in H. destruct H as (u1 & s1 & H1 & H).
  apply _find_spherical_axes_keeps in H1. destruct H1 as (E1 & _ & rs & Hrs & Hall).
  rewrite Hnil in Hrs. simpl in Hrs.
  apply bind_ok in H. destruct H as ([main_axis rot] & s2 & Hmax & H).
  apply max_rot_sym_ok in Hmax. destruct Hmax as [-> Hmax].
  apply max_by_in in Hmax. destruct Hmax as [Hin _].
  rewrite Hrs in Hin. rewrite Forall_forall in Hall.
  specialize (Hall _ Hin). cbn [snd] in Hall. unfold spherical_order in Hall.
  steps H.
  destruct ((List.length (rot_sym s1) =? 0)%nat || (rot <? 3)%nat) eqn:Hlow.
  { apply _proc_sym_top_keeps in H. destruct H as [E A].
    split; [eapply extends_trans; [exact E1 | exact E] | exact A]. }
  destruct (rot =? 3)%nat eqn:H3.
  { apply bind_ok in H. destruct H as (mt & s3 & Hm & H).
    apply _find_mirror_keeps in Hm. destruct Hm as (Em & _).
    assert (E13 : extends self s3) by (eapply extends_trans; [exact E1 | exact Em]).
    destruct (negb (String.eqb mt "")).
    - apply by_inversion_keeps in H. destruct H as [E A].
      split; [eapply extends_trans; [exact E13 | exact E] | exact A].
    - steps H. split; [| discriminate].
      eapply extends_trans; [exact E13 | apply extends_set_sch_symbol]. }
  destruct (rot =? 4)%nat eqn:H4.
  { apply by_inversion_keeps in H. destruct H as [E A].
    split; [eapply extends_trans; [exact E1 | exact E] | exact A]. }
  destruct (rot =? 5)%nat eqn:H5.
  { apply by_inversion_keeps in H. destruct H as [E A].
    split; [eapply extends_trans; [exact E1 | exact E] | exact A]. }
  exfalso. apply orb_false_iff in Hlow. destruct Hlow as [_ Hlow].
  apply Nat.ltb_ge in Hlow. apply Nat.eqb_neq in H3, H4, H5. lia.
Qed.

Lemma _analyze_dispatch self u self' :
  _analyze ext self = Ok (u, self') ->
  List.length (processed_mol self) <> 1%nat
  /\ dispatch ext (classify (eigvals (at_dispatch ext self)) (eig_tol self)) (at_dispatch ext self)
     = Ok (u, self').
Proof.
  unfold _analyze, at_dispatch. intros H. steps H.
  apply bind_ok in H. destruct H as (locals & s1 & Hl & H).
  destruct (List.length (processed_mol self) =? 1)%nat eqn:Hlen.
  - steps Hl. discriminate.
  - steps Hl. apply Nat.eqb_neq in Hlen. split; [exact Hlen |].
    destruct (inertia_entries (mol self)) as [inertia_tensor total_inertia]. cbn [fst snd].
    destruct (Qeq_bool total_inertia 0); [steps H |].
    destruct (eig ext _) as [vals eigvecs]. steps H. exact H.
Qed.

Lemma at_dispatch_setting self :
  mol (at_dispatch ext self) = mol self
  /\ processed_mol (at_dispatch ext self) = processed_mol self
  /\ tol (at_dispatch ext self) = tol self
  /\ eig_tol (at_dispatch ext self) = eig_tol self
  /\ mat_tol (at_dispatch ext self) = mat_tol self
  /\ rot_sym (at_dispatch ext self) = []
  /\ symmops (at_dispatch ext self) = [identity_op].
Proof.
  unfold at_dispatch. destruct (eig ext _) as [vals eigvecs]. repeat split.
Qed.

(** What [_analyze] leaves behind when it returns. *)
Lemma _analyze_keeps self u self' :
  _analyze ext self = Ok (u, self') ->
  same_setting (at_dispatch ext self) self' /\ recorded_valid self' /\ assigned self'.
Proof.
  intros H. apply _analyze_dispatch in H. destruct H as [_ H].
  destruct (at_dispatch_setting self) as (_ & _ & _ & _ & _ & Hrot & Hops).
  set (s0 := at_dispatch ext self) in *.
  assert (R0 : recorded_valid s0) by (exists []; split; [exact Hops | constructor]).
  destruct (classify _ _); cbn [dispatch] in H.
  - destruct (_proc_linear_keeps s0) as (s1 & H1 & S1 & _ & Hcase).
    rewrite H1 in H. inversion H; subst; clear H.
    split; [exact S1 |].
    destruct Hcase as [(Hv & Hsym & Hsymm) | (Hv & Hsym & Hsymm)].
    + split; [| unfold assigned; rewrite Hsym; discriminate].
      exists [inversion_op ext]. split; [exact Hsymm |]. constructor; [| constructor].
      rewrite (valid_same_setting _ _ _ S1). exact Hv.
    + split; [| unfold assigned; rewrite Hsym; discriminate].
      exists []. split; [exact Hsymm | constructor].
  - apply _proc_sph_top_keeps in H; [| exact Hrot]. destruct H as [E A].
    split; [apply E |]. split; [eapply recorded_valid_extends; eauto | exact A].
  - destruct (_proc_asym_top_keeps s0 Hrot) as (u1 & s1 & H1 & E & Hsym).
    rewrite H1 in H. inversion H; subst; clear H.
    split; [apply E |]. split; [eapply recorded_valid_extends; eauto |].
    eapply assigned_in. exact Hsym.
  - apply _proc_sym_top_keeps in H. destruct H as [E A].
    split; [apply E |]. split; [eapply recorded_valid_extends; eauto | exact A].
Qed.

Lemma PointGroupAnalyzer_ok mol0 tolerance eigen_tolerance matrix_tol self :
  PointGroupAnalyzer ext mol0 tolerance eigen_tolerance matrix_tol = Ok self ->
  (mol self = mol0 /\ processed_mol self = get_centered_molecule ext mol0
   /\ tol self = tolerance /\ eig_tol self = eigen_tolerance /\ mat_tol self = matrix_tol)
  /\ recorded_valid self /\ assigned self.
Proof.
  unfold PointGroupAnalyzer.
  destruct (_analyze ext _) as [[u s] | e] eqn:H; intros E; inversion E; subst; clear E.
  apply _analyze_keeps in H. destruct H as (S & R & A).
  split; [| auto].
  destruct (at_dispatch_setting
              (mkAnalyzer mol0 (get_centered_molecule ext mol0) tolerance eigen_tolerance
                 matrix_tol None (origin, origin, origin) origin [] []))
    as (H1 & H2 & H3 & H4 & H5 & _).
  destruct S as (S1 & S2 & S3 & S4 & S5 & _).
  rewrite H1 in S1. rewrite H2 in S2. rewrite H3 in S3. rewrite H4 in S4. rewrite H5 in S5.
  repeat split; assumption.
Qed.
End Keeps.

(** X5: when the constructor of the analyzer returns, the operations it has
    recorded are the identity, first, and operations that each passed
    [is_valid_op] on the centred molecule at the tolerance of the analyzer. *)
Theorem analysis_records_valid_operations ext mol tolerance eigen_tolerance matrix_tol self :
  PointGroupAnalyzer ext mol tolerance eigen_tolerance matrix_tol = Ok self ->
  exists ops,
    symmops self = identity_op :: ops
    /\ Forall (fun op => is_valid_op op (get_centered_molecule ext mol) tolerance = true) ops.
Proof.
  intros H. apply PointGroupAnalyzer_ok in H.
  destruct H as ((_ & Hmol & Htol & _) & (ops & Hops & Hvalid) & _).
  exists ops. split; [exact Hops |].
  unfold valid in Hvalid. rewrite Hmol, Htol in Hvalid. exact Hvalid.
Qed.

Lemma analysis_records_valid_operations_witness :
  exists ops,
    symmops dihydrogen_analyzer = identity_op :: ops
    /\ Forall (fun op => is_valid_op op (get_centered_molecule Ideal.ext dihydrogen) (3 # 10)
                         = true) ops.
Proof.
  apply (analysis_records_valid_operations Ideal.ext dihydrogen (3 # 10) (1 # 100) (1 # 10)).
  vm_compute. reflexivity.
Defined.

(** X6: when the constructor of the analyzer returns, a symbol has been
    assigned, and [get_pointgroup] returns a point group of that symbol whose
    operations begin with the identity and the other operations recorded. *)
Theorem analysis_assigns_symbol ext mol tolerance eigen_tolerance matrix_tol self :
  PointGroupAnalyzer ext mol tolerance eigen_tolerance matrix_tol = Ok self ->
  exists symbol pg ops more,
    sch_symbol self = Some symbol
    /\ get_pointgroup self = Ok pg
    /\ pg_sch_symbol pg = symbol
    /\ symmops self = identity_op :: ops
    /\ pg_operations pg = identity_op :: ops ++ more.
Proof.
  intros H. apply PointGroupAnalyzer_ok in H.
  destruct H as (_ & (ops & Hops & _) & A).
  unfold assigned in A. destruct (sch_symbol self) as [symbol |] eqn:Hsym; [| congruence].
  destruct (generate_full_symmops_prefix (symmops self) (mat_tol self)) as [more Hmore].
  exists symbol, (PointGroup_init symbol (symmops self) (mat_tol self)), ops, more.
  split; [reflexivity |]. split; [unfold get_pointgroup; rewrite Hsym; reflexivity |].
  split; [reflexivity |]. split; [exact Hops |].
  unfold PointGroup_init. cbn [pg_operations]. rewrite Hmore, Hops. reflexivity.
Qed.

Lemma analysis_assigns_symbol_witness :
  exists symbol pg ops more,
    sch_symbol dihydrogen_analyzer = Some symbol
    /\ get_pointgroup dihydrogen_analyzer = Ok pg
    /\ pg_sch_symbol pg = symbol
    /\ symmops dihydrogen_analyzer = identity_op :: ops
    /\ pg_operations pg = identity_op :: ops ++ more.
Proof.
  apply (analysis_assigns_symbol Ideal.ext dihydrogen (3 # 10) (1 # 100) (1 # 10)).
  vm_compute. reflexivity.
Defined.

(** X7: [_find_mirror] raises nothing and answers h, v, d or the empty
    string; it answers h exactly when the reflection through the plane normal
    to the axis is valid; it leaves the rotation records and the symbol as
    they are; and it records one operation, a valid one, when it answers a
    mirror type, and none when it answers the empty string. *)
Theorem find_mirror_outcome ext axis self :
  exists mirror_type self',
    _find_mirror ext axis self = Ok (mirror_type, self')
    /\ In mirror_type [""; "h"; "v"; "d"]%string
    /\ (mirror_type = "h"%string
        <-> is_valid_op (reflection ext axis) (processed_mol self) (tol self) = true)
    /\ rot_sym self' = rot_sym self
    /\ sch_symbol self' = sch_symbol self
    /\ ((mirror_type = ""%string /\ symmops self' = symmops self)
        \/ (mirror_type <> ""%string
            /\ exists op, symmops self' = symmops self ++ [op]
                          /\ is_valid_op op (processed_mol self) (tol self) = true)).
Proof.
  destruct (_find_mirror_returns ext axis self) as (mt & self' & H).
  exists mt, self'. split; [exact H |].
  destruct (_find_mirror_keeps ext axis self mt self' H) as (_ & Hr & Hs & Hin & Hempty & Hsome).
  split; [exact Hin |]. split.
  - unfold _find_mirror in H. fold (valid self (reflection ext axis)).
    destruct (valid self (reflection ext axis)).
    + inversion H. tauto.
    + destruct (mirror_pair ext self axis) as [[s1 s2] |]; cbv zeta in H.
      * destruct (1 <? List.length _)%nat; [destruct (existsb _ _) |];
          inversion H; split; discriminate.
      * inversion H. split; discriminate.
  - split; [exact Hr |]. split; [exact Hs |].
    destruct (String.eqb_spec mt "") as [E | E]; [left | right]; auto.
Qed.

(** X8: from no rotation recorded, the procedure for asymmetric tops raises
    nothing, records valid operations only, and assigns one of ten symbols,
    none with a rotation of an order above 2 (S4 apart, an improper
    rotation). *)
Theorem asymmetric_top_outcome ext self :
  rot_sym self = [] ->
  exists u self',
    _proc_asym_top ext self = Ok (u, self')
    /\ extends self self'
    /\ In (sch_symbol self')
          (map Some ["C1"; "Ci"; "Cs"; "D2"; "D2h"; "D2d"; "C2"; "C2h"; "C2v"; "S4"]%string).
Proof. apply _proc_asym_top_keeps. Qed.

Lemma asymmetric_top_outcome_witness :
  exists u self',
    _proc_asym_top Ideal.ext (analyzer_at square_xz (3 # 10) (1 # 2, 1, 1 # 2)) = Ok (u, self')
    /\ extends (analyzer_at square_xz (3 # 10) (1 # 2, 1, 1 # 2)) self'
    /\ In (sch_symbol self')
          (map Some ["C1"; "Ci"; "Cs"; "D2"; "D2h"; "D2d"; "C2"; "C2h"; "C2v"; "S4"]%string).
Proof.
  apply (asymmetric_top_outcome Ideal.ext (analyzer_at square_xz (3 # 10) (1 # 2, 1, 1 # 2))).
  reflexivity.
Defined.



(** No atom, and two atoms at the origin: the total inertia is zero. *)
Example analysis_without_inertia :
  PointGroupAnalyzer Ideal.ext [] (3 # 10) (1 # 100) (1 # 10) = Raise (LinAlgError not_finite)
  /\ PointGroupAnalyzer Ideal.ext [atom "H" 1 0 0 0; atom "H" 1 0 0 0]
       (3 # 10) (1 # 100) (1 # 10)
     = Raise (LinAlgError not_finite).
Proof. split; vm_compute; reflexivity. Qed.

(** X10: when [_get_smallest_set_not_on_axis] returns, the analyzer is as it
    was, and the set returned is a class of [cluster_sites] without its
    atoms on the axis: it is not empty, none of its atoms is on the axis,
    and no other class has fewer atoms off the axis, the classes with none
    apart. *)
Theorem smallest_set_not_on_axis ext axis self min_set self' :
  _get_smallest_set_not_on_axis ext axis self = Ok (min_set, self') ->
  self' = self
  /\ min_set <> []
  /\ Forall (fun site => not_on_axis ext (tol self) axis site = true) min_set
  /\ exists origin_site dist_el_sites,
       cluster_sites ext (processed_mol self) (tol self) = Ok (origin_site, dist_el_sites)
       /\ (exists key class, In (key, class) dist_el_sites
                             /\ min_set = filter (not_on_axis ext (tol self) axis) class)
       /\ forall key class,
           In (key, class) dist_el_sites ->
           filter (not_on_axis ext (tol self) axis) class <> [] ->
           (List.length min_set
            <= List.length (filter (not_on_axis ext (tol self) axis) class))%nat.
Proof. apply _get_smallest_set_not_on_axis_ok. Qed.

Lemma smallest_set_not_on_axis_witness :
  let self := analyzer_at square_xy (3 # 10) (1 # 2, 1 # 2, 1) in
  let off_axis := not_on_axis Ideal.ext (tol self) (0, 0, 1) in
  self = self
  /\ square_xy <> []
  /\ Forall (fun site => off_axis site = true) square_xy
  /\ exists origin_site dist_el_sites,
       cluster_sites Ideal.ext (processed_mol self) (tol self)
       = Ok (origin_site, dist_el_sites)
       /\ (exists key class,
              In (key, class) dist_el_sites /\ square_xy = filter off_axis class)
       /\ forall key class,
           In (key, class) dist_el_sites ->
           filter off_axis class <> [] ->
           le (List.length square_xy) (List.length (filter off_axis class)).
Proof.
  apply (smallest_set_not_on_axis Ideal.ext (0, 0, 1)
           (analyzer_at square_xy (3 # 10) (1 # 2, 1 # 2, 1)) square_xy).
  vm_compute. reflexivity.
Defined.

(** ** _check_rot_sym: the order it returns *)

Lemma rot_sym_loop_outcome ext axis max_sym orders self n self' :
  rot_sym_loop ext axis max_sym orders self = Ok (n, self') ->
  (exists before after,
      orders = before ++ n :: after
      /\ (max_sym mod n = 0)%nat
      /\ valid self (rotation ext axis n) = true
      /\ self' = append_rot_sym axis n (append_symmop (rotation ext axis n) self)
      /\ forall i, In i before -> (max_sym mod i = 0)%nat ->
                   valid self (rotation ext axis i) = false)
  \/ (n = 1%nat /\ self' = self
      /\ forall i, In i orders -> (max_sym mod i = 0)%nat ->
                   valid self (rotation ext axis i) = false).
Proof.
  unfold valid. induction orders as [| i r IH].
  - intros H. inversion H; subst. right. split; [reflexivity |]. split; [reflexivity |].
    intros i [].
  - rewrite rot_sym_loop_cons.
    destruct (max_sym mod i =? 0)%nat eqn:Hdiv; cbn [negb].
    + apply Nat.eqb_eq in Hdiv.
      destruct (is_valid_op (rotation ext axis i) (processed_mol self) (tol self)) eqn:Hv.
      * intros H. inversion H; subst. left. exists [], r. repeat split; trivial.
        intros j [].
      * intros H.
        destruct (IH H) as [(before & after & -> & Hn & Hvn & Hs & Hb) | (-> & -> & Hall)].
        -- left. exists (i :: before), after. repeat split; trivial.
           intros j [<- | Hj] Hj0; [exact Hv | exact (Hb j Hj Hj0)].
        -- right. repeat split. intros j [<- | Hj] Hj0; [exact Hv | exact (Hall j Hj Hj0)].
    + apply Nat.eqb_neq in Hdiv.
      intros H. destruct (IH H) as [(before & after & -> & Hn & Hvn & Hs & Hb) | (-> & -> & Hall)].
      * left. exists (i :: before), after. repeat split; trivial.
        intros j [<- | Hj] Hj0; [contradiction | exact (Hb j Hj Hj0)].
      * right. repeat split. intros j [<- | Hj] Hj0; [contradiction | exact (Hall j Hj Hj0)].
Qed.

(** In [xrange(max_sym, 0, -1)] the numbers that come before [n] are those
    above it, up to [max_sym]. *)
Lemma xrange_down_before max_sym before n after i :
  xrange_down max_sym = before ++ n :: after ->
  (n < i <= max_sym)%nat -> In i before.
Proof.
  intros Heq Hi.
  assert (Hin : In i (xrange_down max_sym)).
  { unfold xrange_down. apply -> in_rev. apply in_seq. lia. }
  destruct (xrange_down_sorted max_sym) as [Hsorted _].
  rewrite Heq in Hin, Hsorted.
  apply in_app_or in Hin. destruct Hin as [Hin | [-> | Hin]]; [exact Hin | lia |].
  exfalso. clear Heq. induction before as [| b before IH].
  - simpl in Hsorted. inversion Hsorted as [| ? ? _ Hge]; subst.
    rewrite Forall_forall in Hge. specialize (Hge _ Hin). lia.
  - simpl in Hsorted. inversion Hsorted; subst. auto.
Qed.

Lemma xrange_down_in max_sym i : In i (xrange_down max_sym) <-> (1 <= i <= max_sym)%nat.
Proof. unfold xrange_down. rewrite <- in_rev, in_seq. lia. Qed.

(** What [_check_rot_sym] returns and records. *)
Lemma _check_rot_sym_outcome ext axis self n self' :
  _check_rot_sym ext axis self = Ok (n, self') ->
  exists min_set,
    _get_smallest_set_not_on_axis ext axis self = Ok (min_set, self)
    /\ (1 <= n <= List.length min_set)%nat
    /\ (List.length min_set mod n = 0)%nat
    /\ (forall i, (n < i <= List.length min_set)%nat ->
                  (List.length min_set mod i = 0)%nat ->
                  is_valid_op (rotation ext axis i) (processed_mol self) (tol self) = false)
    /\ ((is_valid_op (rotation ext axis n) (processed_mol self) (tol self) = true
         /\ symmops self' = symmops self ++ [rotation ext axis n]
         /\ rot_sym self' = rot_sym self ++ [(axis, n)])
        \/ (n = 1%nat
            /\ is_valid_op (rotation ext axis 1) (processed_mol self) (tol self) = false
            /\ self' = self)).
Proof.
  intros H. unfold _check_rot_sym in H. apply bind_ok in H.
  destruct H as (min_set & s1 & Hmin & Hloop).
  destruct (_get_smallest_set_not_on_axis_ok ext axis self min_set s1 Hmin) as (-> & Hne & _).
  exists min_set. split; [exact Hmin |].
  assert (Hlen : (1 <= List.length min_set)%nat).
  { destruct min_set; [contradiction | simpl; lia]. }
  apply rot_sym_loop_outcome in Hloop. unfold valid in Hloop.
  destruct Hloop as [(before & after & Heq & Hn & Hvn & -> & Hb) | (-> & -> & Hall)].
  - assert (Hin : In n (xrange_down (List.length min_set))).
    { rewrite Heq. apply in_or_app. right. left. reflexivity. }
    apply xrange_down_in in Hin.
    split; [exact Hin |]. split; [exact Hn |]. split.
    + intros i Hi Hi0. apply Hb; [| exact Hi0].
      eapply xrange_down_before; [exact Heq | exact Hi].
    + left. split; [exact Hvn |]. split; reflexivity.
  - split; [lia |]. split; [apply Nat.Div0.mod_same || apply Nat.mod_1_r |]. split.
    + intros i Hi Hi0. apply Hall; [| exact Hi0]. apply xrange_down_in. lia.
    + right. split; [reflexivity |]. split; [| reflexivity].
      apply Hall; [apply xrange_down_in; lia | apply Nat.mod_1_r].
Qed.

(** X11: the order [_check_rot_sym] returns divides the size of the smallest
    set of equivalent atoms off the axis, and no larger divisor of that size
    has a valid rotation; the rotation of the order returned is valid and is
    recorded, the one case apart where 1 is returned because no candidate
    passed, the full turn included, and nothing is recorded. *)
Theorem check_rot_sym_largest_order ext axis self n self' :
  _check_rot_sym ext axis self = Ok (n, self') ->
  exists min_set,
    _get_smallest_set_not_on_axis ext axis self = Ok (min_set, self)
    /\ (1 <= n <= List.length min_set)%nat
    /\ (List.length min_set mod n = 0)%nat
    /\ (forall i, (n < i <= List.length min_set)%nat ->
                  (List.length min_set mod i = 0)%nat ->
                  is_valid_op (rotation ext axis i) (processed_mol self) (tol self) = false)
    /\ ((is_valid_op (rotation ext axis n) (processed_mol self) (tol self) = true
         /\ symmops self' = symmops self ++ [rotation ext axis n]
         /\ rot_sym self' = rot_sym self ++ [(axis, n)])
        \/ (n = 1%nat
            /\ is_valid_op (rotation ext axis 1) (processed_mol self) (tol self) = false
            /\ self' = self)).
Proof. apply _check_rot_sym_outcome. Qed.

(** The square in the xy plane, about the z axis: the order is 4. *)
Lemma check_rot_sym_largest_order_witness :
  let self := analyzer_at square_xy (3 # 10) (1 # 2, 1 # 2, 1) in
  let op := rotation Ideal.ext (0, 0, 1) 4 in
  let self' := append_rot_sym (0, 0, 1) 4 (append_symmop op self) in
  exists min_set,
    _get_smallest_set_not_on_axis Ideal.ext (0, 0, 1) self = Ok (min_set, self)
    /\ (1 <= 4 <= List.length min_set)%nat
    /\ (List.length min_set mod 4 = 0)%nat
    /\ (forall i, (4 < i <= List.length min_set)%nat ->
                  (List.length min_set mod i = 0)%nat ->
                  is_valid_op (rotation Ideal.ext (0, 0, 1) i) (processed_mol self) (tol self)
                  = false)
    /\ ((is_valid_op op (processed_mol self) (tol self) = true
         /\ symmops self' = symmops self ++ [op]
         /\ rot_sym self' = rot_sym self ++ [((0, 0, 1), 4%nat)])
        \/ (4%nat = 1%nat
            /\ is_valid_op (rotation Ideal.ext (0, 0, 1) 1) (processed_mol self) (tol self)
               = false
            /\ self' = self)).
Proof.
  intros self op self'.
  apply (check_rot_sym_largest_order Ideal.ext (0, 0, 1) self 4 self').
  vm_compute. reflexivity.
Defined.

(** ** _check_perpendicular_r2_axis: the axis it records *)

Lemma combinations2_in {A} (l : list A) a b :
  In (a, b) (combinations2 l) -> In a l /\ In b l.
Proof.
  induction l as [| x r IH]; simpl; [intros [] |].
  intros H. apply in_app_or in H. destruct H as [H | H].
  - apply in_map_iff in H. destruct H as (y & E & Hy). inversion E; subst. auto.
  - destruct (IH H). auto.
Qed.

Lemma cross_perpendicular u v : dot (cross u v) v == 0 /\ dot (cross u v) u == 0.
Proof. destruct u as [[a b] c], v as [[x y] z]. unfold dot, cross. split; ring. Qed.

(** What [_check_perpendicular_r2_axis] returns and records. *)
Lemma _check_perpendicular_r2_axis_outcome ext axis self found self' :
  _check_perpendicular_r2_axis ext axis self = Ok (found, self') ->
  exists min_set,
    _get_smallest_set_not_on_axis ext axis self = Ok (min_set, self)
    /\ ((found = false /\ self' = self
         /\ forall s1 s2, In (s1, s2) (combinations2 min_set) ->
              Qgtb (norm ext (cross (vsub (coords s1) (coords s2)) axis)) (tol self) = true ->
              is_valid_op
                (from_origin_axis_angle ext origin
                   (cross (vsub (coords s1) (coords s2)) axis) 180)
                (processed_mol self) (tol self) = false)
        \/ (found = true
            /\ exists s1 s2 test_axis,
                 In s1 min_set /\ In s2 min_set
                 /\ test_axis = cross (vsub (coords s1) (coords s2)) axis
                 /\ dot test_axis axis == 0
                 /\ dot test_axis (vsub (coords s1) (coords s2)) == 0
                 /\ tol self < norm ext test_axis
                 /\ is_valid_op (from_origin_axis_angle ext origin test_axis 180)
                      (processed_mol self) (tol self) = true
                 /\ symmops self'
                    = symmops self ++ [from_origin_axis_angle ext origin test_axis 180]
                 /\ rot_sym self' = rot_sym self ++ [(test_axis, 2%nat)])).
Proof.
  unfold _check_perpendicular_r2_axis. intros H.
  apply bind_ok in H. destruct H as (min_set & s & Hmin & H).
  destruct (_get_smallest_set_not_on_axis_ok ext axis self min_set s Hmin) as [-> _].
  exists min_set. split; [exact Hmin |].
  steps H. destruct (find _ _) as [[s1 s2] |] eqn:Hfind.
  - apply find_some in Hfind. cbn [fst snd] in Hfind. destruct Hfind as [Hin Hp].
    apply andb_true_iff in Hp. destruct Hp as [Hn Hv].
    apply combinations2_in in Hin. destruct Hin as [H1 H2].
    steps H. right. split; [reflexivity |].
    exists s1, s2, (cross (vsub (coords s1) (coords s2)) axis).
    destruct (cross_perpendicular (vsub (coords s1) (coords s2)) axis) as [Ha Hd].
    repeat split; trivial. apply Qltb_lt. exact Hn.
  - steps H. left. split; [reflexivity |]. split; [reflexivity |].
    intros s1 s2 Hin Hn.
    pose proof (find_none _ _ Hfind (s1, s2) Hin) as Hp. cbn [fst snd] in Hp.
    unfold valid in Hp. rewrite Hn in Hp. exact Hp.
Qed.



(** ** is_valid_op: the identity *)

Lemma Qltb_abs_compat atol p q : p == q -> Qltb (Qabs p) atol = Qltb (Qabs q) atol.
Proof. intros E. unfold Qltb. rewrite E. reflexivity. Qed.

Lemma within_operate_identity atol u v :
  within atol u (operate identity_op v) = within atol u v.
Proof.
  destruct u as [[a b] c], v as [[x y] z].
  change (operate identity_op (x, y, z))
    with (1 * x + (0 * y + (0 * z + (0 * 1 + 0))),
          0 * x + (1 * y + (0 * z + (0 * 1 + 0))),
          0 * x + (0 * y + (1 * z + (0 * 1 + 0)))).
  unfold within, vsub.
  f_equal; [f_equal |]; apply Qltb_abs_compat; ring.
Qed.

Lemma within_positive atol u v : within atol u v = true -> 0 < atol.
Proof.
  unfold within. destruct (vsub u v) as [[a b] c].
  rewrite !andb_true_iff, !Qltb_lt. intros [[Ha _] _].
  eapply Qle_lt_trans; [apply Qabs_nonneg | exact Ha].
Qed.

Lemma within_refl atol u : 0 < atol -> within atol u u = true.
Proof.
  intros Hpos. destruct u as [[a b] c]. unfold within, vsub.
  rewrite (Qltb_abs_compat atol (a - a) 0), (Qltb_abs_compat atol (b - b) 0),
    (Qltb_abs_compat atol (c - c) 0) by ring.
  assert (H : Qltb (Qabs 0) atol = true) by (apply Qltb_lt; exact Hpos).
  rewrite H. reflexivity.
Qed.

Lemma indices_from_none {A} (p : A -> bool) (l : list A) s :
  (forall x, In x l -> p x = false) -> indices_from s p l = [].
Proof.
  revert s. induction l as [| y r IH]; intros s H; simpl; [reflexivity |].
  rewrite (H y) by (left; reflexivity). apply IH. intros x Hx. apply H. right. exact Hx.
Qed.

Lemma indices_from_single {A} (p : A -> bool) (l : list A) s i :
  (i < List.length l)%nat ->
  (forall j x, nth_error l j = Some x -> (p x = true <-> j = i)) ->
  indices_from s p l = [(s + i)%nat].
Proof.
  revert s i. induction l as [| y r IH]; intros s i Hlen H; simpl in *; [lia |].
  destruct i as [| i].
  - rewrite (proj2 (H 0%nat y eq_refl) eq_refl). rewrite Nat.add_0_r. f_equal.
    apply indices_from_none. intros x Hx. apply In_nth_error in Hx. destruct Hx as [j Hj].
    destruct (p x) eqn:Hp; [| reflexivity].
    apply (H (S j) x Hj) in Hp. discriminate.
  - destruct (p y) eqn:Hp.
    + apply (H 0%nat y eq_refl) in Hp. discriminate.
    + rewrite (IH (S s) i); [f_equal; lia | lia |].
      intros j x Hj. rewrite (H (S j) x Hj). lia.
Qed.

(** X13: the identity is a valid operation exactly when no two atoms of the
    molecule lie within the tolerance of each other, coordinate by
    coordinate, and each atom lies within the tolerance of itself (which a
    tolerance of zero or below denies): of an empty molecule it is always
    valid, of any other molecule never at a tolerance of zero or below. *)
Theorem identity_valid_iff_separated mol0 atol :
  is_valid_op identity_op mol0 atol = true <->
  forall i j si sj,
    nth_error mol0 i = Some si -> nth_error mol0 j = Some sj ->
    (within atol (coords sj) (coords si) = true <-> i = j).
Proof.
  unfold is_valid_op. rewrite forallb_forall. split.
  - intros Hv i j si sj Hi Hj.
    specialize (Hv si (nth_error_In _ _ Hi)). unfold maps_to_equivalent in Hv.
    destruct (find_in_coord_list _ _ _) as [| k [| ? ?]] eqn:Hfind; try discriminate.
    assert (Hspec : forall j', In j' [k] <->
              exists c, nth_error (cart_coords mol0) j' = Some c
                        /\ within atol c (coords si) = true).
    { intros j'. rewrite <- Hfind, find_in_coord_list_spec.
      split; intros [c [Hc Hw]]; exists c; split; trivial;
        [rewrite within_operate_identity in Hw | rewrite within_operate_identity]; exact Hw. }
    assert (Hpos : 0 < atol).
    { destruct (proj1 (Hspec k) (or_introl eq_refl)) as [c [_ Hw]].
      exact (within_positive _ _ _ Hw). }
    assert (Hik : i = k).
    { assert (Hin : In i [k]).
      { apply Hspec. exists (coords si). split; [| apply within_refl; exact Hpos].
        unfold cart_coords. rewrite nth_error_map, Hi. reflexivity. }
      destruct Hin as [-> | []]. reflexivity. }
    split.
    + intros Hw. assert (Hin : In j [k]).
      { apply Hspec. exists (coords sj). split; [| exact Hw].
        unfold cart_coords. rewrite nth_error_map, Hj. reflexivity. }
      destruct Hin as [<- | []]. exact Hik.
    + intros ->. rewrite Hi in Hj. inversion Hj; subst. apply within_refl. exact Hpos.
  - intros H si Hin. apply In_nth_error in Hin. destruct Hin as [i Hi].
    unfold maps_to_equivalent, find_in_coord_list.
    rewrite (indices_from_single _ _ 0 i).
    + cbn [Nat.add]. rewrite Hi. unfold species_and_occu_eqb, specie_eqb. apply String.eqb_refl.
    + unfold cart_coords. rewrite length_map. apply nth_error_Some. congruence.
    + intros j c Hc. unfold cart_coords in Hc. rewrite nth_error_map in Hc.
      destruct (nth_error mol0 j) as [sj |] eqn:Hj; [| discriminate].
      inversion Hc; subst. rewrite within_operate_identity.
      rewrite (H i j si sj Hi Hj). split; congruence.
Qed.

(** ** cluster_sites: the classes it returns *)

Lemma fold_left_invariant_in {A B} (P : B -> Prop) (f : B -> A -> B) (l : list A) (b : B) :
  P b -> (forall b a, In a l -> P b -> P (f b a)) -> P (fold_left f l b).
Proof.
  revert b. induction l as [| a l IH]; intros b Hb Hstep; simpl; [exact Hb |].
  apply IH.
  - apply Hstep; [left; reflexivity | exact Hb].
  - intros b' a' Hin. apply Hstep. right. exact Hin.
Qed.

Lemma dict_append_all {K V} (eqb : K -> K -> bool) (P : V -> Prop) (d : list (K * list V)) k x :
  Forall (fun c => Forall P (snd c)) d -> P x ->
  Forall (fun c => Forall P (snd c)) (dict_append eqb d k x).
Proof.
  intros Hd Hx. induction d as [| [k' l] r IH]; simpl.
  - repeat constructor. exact Hx.
  - inversion Hd; subst. cbn [snd] in *. destruct (eqb k' k); constructor; auto.
    cbn [snd]. apply Forall_app. split; [assumption | repeat constructor; exact Hx].
Qed.

Lemma append_by_avg_all (P : Site -> Prop) avg_dist f mol0 d d' :
  Forall (fun c => Forall P (snd c)) d -> Forall P mol0 ->
  append_by_avg avg_dist f mol0 d = Ok d' ->
  Forall (fun c => Forall P (snd c)) d'.
Proof.
  revert f d. induction mol0 as [| site mol0 IH]; intros f d Hd Hmol H; simpl in H.
  - inversion H; subst. exact Hd.
  - destruct f as [| l f]; [discriminate |].
    destruct (dict_get Nat.eqb avg_dist l); [| discriminate].
    inversion Hmol; subst.
    apply (IH f (dict_append Qeq_bool d q site)); auto using dict_append_all.
Qed.

Lemma insert_sorted_in {A} (ltb : A -> A -> bool) x l y :
  In y (insert_sorted ltb x l) <-> y = x \/ In y l.
Proof.
  induction l as [| z r IH]; simpl; [intuition congruence |].
  destruct (ltb x z); simpl; [intuition congruence |]. rewrite IH. intuition congruence.
Qed.

Lemma sorted_in {A} (ltb : A -> A -> bool) l y : In y (sorted ltb l) <-> In y l.
Proof.
  unfold sorted.
  assert (H : forall acc, In y (fold_left (fun acc x => insert_sorted ltb x acc) l acc)
                          <-> In y l \/ In y acc).
  { induction l as [| x r IH]; intros acc; simpl; [tauto |].
    rewrite IH, insert_sorted_in. intuition congruence. }
  rewrite H. simpl. tauto.
Qed.

(** A group of [itertools.groupby], by species: it is not empty, and its
    sites are sites of the list, of the species of its key. *)
Lemma groupby_specie_groups (l : list Site) k g :
  In (k, g) (groupby specie_eqb specie l) ->
  g <> [] /\ forall x, In x g -> In x l /\ specie_eqb (specie x) k = true.
Proof.
  revert k g. induction l as [| x r IH]; intros k g; simpl; [intros [] |].
  destruct (groupby specie_eqb specie r) as [| [k0 g0] gs] eqn:E.
  - intros [H | []]. inversion H; subst. split; [discriminate |].
    intros y [<- | []]. split; [left; reflexivity | apply String.eqb_refl].
  - assert (Hrest : forall k g, In (k, g) ((k0, g0) :: gs) ->
              g <> [] /\ forall y, In y g -> In y (x :: r) /\ specie_eqb (specie y) k = true).
    { intros k' g' Hin. destruct (IH k' g' Hin) as [Hne Hall]. split; [exact Hne |].
      intros y Hy. destruct (Hall y Hy). split; [right |]; assumption. }
    destruct (specie_eqb (specie x) k0) eqn:Hx.
    + intros [H | H].
      * inversion H; subst. split; [discriminate |].
        intros y [<- | Hy]; [split; [left; reflexivity | exact Hx] |].
        destruct (IH k g0 (or_introl eq_refl)) as [_ Hall].
        destruct (Hall y Hy). split; [right |]; assumption.
      * apply Hrest. right. exact H.
    + intros [H | H].
      * inversion H; subst. split; [discriminate |].
        intros y [<- | []]. split; [left; reflexivity | apply String.eqb_refl].
      * apply Hrest. exact H.
Qed.

Lemma dict_set_in {K V} (eqb : K -> K -> bool) (d : list (K * V)) k v c :
  In c (dict_set eqb d k v) ->
  In c d \/ (snd c = v /\ (fst c = k \/ eqb (fst c) k = true)).
Proof.
  induction d as [| [k' v'] r IH]; simpl.
  - intros [<- | []]. right. auto.
  - destruct (eqb k' k) eqn:E; simpl.
    + intros [<- | H]; [right; auto | left; auto].
    + intros [<- | H]; [left; auto |]. destruct (IH H); auto.
Qed.

Lemma add_groups_classes ext mol0 atol d sites dist_el_sites :
  atol <= d -> (forall s, In s sites -> In s mol0) ->
  Forall (class_of mol0 atol) dist_el_sites ->
  Forall (class_of mol0 atol) (add_groups ext d sites dist_el_sites).
Proof.
  intros Hd Hsites Hacc. unfold add_groups.
  apply fold_left_invariant_in; [exact Hacc |].
  intros acc [k g] Hin Hinv. cbn [fst snd].
  apply groupby_specie_groups in Hin. destruct Hin as [Hne Hall].
  apply Forall_forall. intros [[d' sp'] class] Hc.
  apply dict_set_in in Hc. destruct Hc as [Hc | [Hv Hk]].
  - rewrite Forall_forall in Hinv. exact (Hinv _ Hc).
  - cbn [fst snd] in Hv, Hk. subst class.
    assert (Hkey : d' == d /\ symbol sp' = symbol k).
    { destruct Hk as [Hk | Hk].
      - inversion Hk; subst. split; reflexivity.
      - unfold dist_key_eqb in Hk. cbn [fst snd] in Hk.
        apply andb_true_iff in Hk. destruct Hk as [Hq Hs].
        apply Qeq_bool_iff in Hq. apply String.eqb_eq in Hs. auto. }
    destruct Hkey as [Hq Hs]. split; [exact Hne |]. split; [rewrite Hq; exact Hd |].
    intros site Hsite. destruct (Hall site Hsite) as [Hin Heq]. split.
    + apply Hsites. apply sorted_in in Hin. exact Hin.
    + unfold specie_eqb in *. apply String.eqb_eq in Heq. apply String.eqb_eq. congruence.
Qed.

Lemma split_origin_classes ext mol0 atol items origin_site dist_el_sites o des :
  Forall (fun c => Forall (fun s => In s mol0) (snd c)) items ->
  Forall (fun c => snd c <> []) items ->
  (forall s, origin_site = Some s -> In s mol0) ->
  Forall (class_of mol0 atol) dist_el_sites ->
  split_origin ext atol items origin_site dist_el_sites = Ok (o, des) ->
  (forall s, o = Some s -> In s mol0) /\ Forall (class_of mol0 atol) des.
Proof.
  revert origin_site dist_el_sites.
  induction items as [| [d sites] r IH]; intros origin_site dist_el_sites Hin Hne Ho Hacc H;
    simpl in H.
  - inversion H; subst. auto.
  - inversion Hin as [| ? ? Hsites Hr]; subst. inversion Hne as [| ? ? _ Hner]; subst.
    cbn [snd] in Hsites. rewrite Forall_forall in Hsites.
    destruct (Qltb d atol) eqn:Hd.
    + destruct (1 <? List.length sites)%nat; [discriminate |].
      apply (IH (hd_error sites) dist_el_sites); auto.
      intros s Hs. destruct sites as [| s0 ?]; [discriminate |].
      inversion Hs; subst. apply Hsites. left. reflexivity.
    + apply (IH origin_site (add_groups ext d sites dist_el_sites)); auto.
      apply add_groups_classes; auto. apply Qltb_ge. exact Hd.
Qed.

(** X14: when [cluster_sites] returns, the origin site, if there is one, is
    a site of the molecule, and every class it returns is not empty, is made
    of sites of the molecule, all of the species of its key, and has a key
    distance that is not below the tolerance. *)
Theorem cluster_sites_classes ext mol0 atol origin_site dist_el_sites :
  cluster_sites ext mol0 atol = Ok (origin_site, dist_el_sites) ->
  (forall site, origin_site = Some site -> In site mol0)
  /\ forall d sp class,
       In ((d, sp), class) dist_el_sites ->
       class <> [] /\ atol <= d
       /\ forall site, In site class -> In site mol0 /\ specie_eqb (specie site) sp = true.
Proof.
  unfold cluster_sites. intros H.
  destruct (clustered_sites_of ext mol0 atol) as [clustered | e] eqn:Hc; [| discriminate].
  assert (Hfacts : Forall (fun c => Forall (fun s => In s mol0) (snd c)) clustered
                   /\ Forall (fun c => snd c <> []) clustered).
  { unfold clustered_sites_of in Hc.
    destruct (fclusterdata ext (dists_of ext mol0) atol) as [f | e]; [| discriminate].
    destruct (append_by_label _ _ _) as [clustered_dists | e]; [| discriminate].
    split.
    - eapply append_by_avg_all; [| | exact Hc]; [constructor |].
      apply Forall_forall. auto.
    - eapply append_by_avg_nonempty; [| exact Hc]. constructor. }
  destruct Hfacts as [Hin Hne].
  destruct (split_origin_classes ext mol0 atol clustered None [] origin_site dist_el_sites)
    as [Ho Hall]; auto; [discriminate |].
  split; [exact Ho |]. intros d sp class Hclass.
  rewrite Forall_forall in Hall. exact (Hall _ Hclass).
Qed.

(** The square in the xy plane: no origin site, and one class of four
    atoms, under the key distance 1/2 that the source computes for it. *)
Lemma cluster_sites_classes_witness :
  (forall site, @None Site = Some site -> In site square_xy)
  /\ forall d sp class,
       In ((d, sp), class)
          [((4000000000000000000000000000000000000 # 8000000000000000000000000000000000000,
             mkSpecie "X" 1), square_xy)] ->
       class <> [] /\ 3 # 10 <= d
       /\ forall site, In site class -> In site square_xy /\ specie_eqb (specie site) sp = true.
Proof.
  apply (cluster_sites_classes Ideal.ext square_xy (3 # 10)).
  vm_compute. reflexivity.
Defined.

(** ** _proc_no_rot_sym: the three symbols *)

Lemma _find_mirror_none ext axis self self' :
  _find_mirror ext axis self = Ok (""%string, self') -> self' = self.
Proof.
  unfold _find_mirror.
  destruct (valid self (reflection ext axis)); [intros H; inversion H |].
  destruct (mirror_pair ext self axis) as [[s1 s2] |]; cbv zeta.
  - destruct (1 <? List.length _)%nat; [destruct (existsb _ _) |]; intros H; inversion H.
  - intros H. inversion H. reflexivity.
Qed.

Lemma first_mirror_outcome ext axes self u self' :
  first_mirror ext axes self = Ok (u, self') ->
  (self' = self
   /\ forall v, In v axes -> _find_mirror ext v self = Ok (""%string, self))
  \/ (sch_symbol self' = Some "Cs"%string
      /\ rot_sym self' = rot_sym self
      /\ exists op, symmops self' = symmops self ++ [op] /\ valid self op = true).
Proof.
  induction axes as [| v r IH]; intros H; simpl in H.
  - steps H. left. split; [reflexivity | intros v []].
  - apply bind_ok in H. destruct H as (mt & s1 & Hm & H).
    destruct (String.eqb mt "") eqn:E; cbn [negb] in H.
    + apply String.eqb_eq in E. subst mt.
      pose proof (_find_mirror_none ext v self s1 Hm) as ->.
      destruct (IH H) as [[-> Hall] | Hcs]; [left | right; exact Hcs].
      split; [reflexivity |]. intros v' [<- | Hv']; [exact Hm | exact (Hall v' Hv')].
    + apply String.eqb_neq in E.
      apply _find_mirror_keeps in Hm. destruct Hm as (_ & Hr & _ & _ & _ & Hop).
      steps H. right. split; [reflexivity |]. split; [exact Hr |]. exact (Hop E).
Qed.

(** X17: [_proc_no_rot_sym] raises nothing and records no rotation.  It
    assigns Ci and records the inversion exactly when the inversion is
    valid; otherwise it assigns Cs and records one valid operation, or it
    assigns C1 and records nothing, and then [_find_mirror] answers the empty
    string for each of the three principal axes. *)
Theorem no_rot_sym_outcome ext self :
  exists self',
    _proc_no_rot_sym ext self = Ok (tt, self')
    /\ rot_sym self' = rot_sym self
    /\ if is_valid_op (inversion_op ext) (processed_mol self) (tol self)
       then sch_symbol self' = Some "Ci"%string
            /\ symmops self' = symmops self ++ [inversion_op ext]
       else (sch_symbol self' = Some "Cs"%string
             /\ exists op, symmops self' = symmops self ++ [op]
                           /\ is_valid_op op (processed_mol self) (tol self) = true)
            \/ (sch_symbol self' = Some "C1"%string
                /\ symmops self' = symmops self
                /\ forall v, In v (axes_list (principal_axes self)) ->
                     _find_mirror ext v (set_sch_symbol "C1" self)
                     = Ok (""%string, set_sch_symbol "C1" self)).
Proof.
  unfold _proc_no_rot_sym. unfold bind at 1, modify at 1. unfold bind at 1, get.
  change (valid (set_sch_symbol "C1" self) (inversion_op ext))
    with (is_valid_op (inversion_op ext) (processed_mol self) (tol self)).
  destruct (is_valid_op (inversion_op ext) (processed_mol self) (tol self)).
  - unfold bind, modify. eexists. split; [reflexivity |]. repeat split.
  - destruct (first_mirror_returns ext (axes_list (principal_axes (set_sch_symbol "C1" self)))
                (set_sch_symbol "C1" self)) as ([] & s2 & H).
    exists s2. split; [exact H |].
    apply first_mirror_outcome in H.
    destruct H as [[-> Hall] | (Hs & Hr & op & Hop & Hv)].
    + split; [reflexivity |]. right. repeat split. exact Hall.
    + split; [exact Hr |]. left. split; [exact Hs |]. exists op. split; [exact Hop | exact Hv].
Qed.

(** ** _proc_cyclic and _proc_dihedral: the symbols *)

Lemma max_by_none {A} (key : A -> nat) (l : list A) : max_by key l = None -> l = [].
Proof.
  destruct l as [| a r]; [reflexivity |]. simpl.
  destruct (max_by key r) as [y |]; [destruct (key a <? key y)%nat |]; discriminate.
Qed.

(** X18: [_proc_cyclic] raises the ValueError of [max] exactly when no
    rotation is recorded.  Otherwise it returns, records valid operations
    only and no rotation, and assigns Cn, Cnh, Cnv or S2n, where n is the
    highest order recorded. *)
Theorem cyclic_symbol ext self :
  (rot_sym self = [] ->
   _proc_cyclic ext self = Raise (ValueError "max() arg is an empty sequence"))
  /\ (rot_sym self <> [] ->
      exists self' main_axis rot,
        _proc_cyclic ext self = Ok (tt, self')
        /\ In (main_axis, rot) (rot_sym self)
        /\ (forall r, In r (rot_sym self) -> (snd r <= rot)%nat)
        /\ extends self self'
        /\ rot_sym self' = rot_sym self
        /\ In (sch_symbol self')
              [Some ("C" ++ str rot); Some ("C" ++ str rot ++ "h");
               Some ("C" ++ str rot ++ "v"); Some ("S" ++ str (2 * rot))]%string).
Proof.
  split.
  - intros Hnil. unfold _proc_cyclic, bind, max_rot_sym. rewrite Hnil. reflexivity.
  - intros Hne. destruct (_proc_cyclic_returns ext self Hne) as ([] & self' & H).
    destruct (_proc_cyclic_keeps ext self tt self' H) as (He & Hr & main_axis & rot & Hmax & Hs).
    destruct (max_by_in _ _ _ Hmax) as [Hin Hle].
    exists self', main_axis, rot.
    split; [exact H |]. split; [exact Hin |]. split; [exact Hle |].
    split; [exact He |]. split; [exact Hr | exact Hs].
Qed.

Lemma cyclic_symbol_witness :
  let self := append_rot_sym (0, 0, 1) 4 (analyzer_at square_xy (3 # 10) (1 # 2, 1 # 2, 1)) in
  (rot_sym self = [] ->
   _proc_cyclic Ideal.ext self = Raise (ValueError "max() arg is an empty sequence"))
  /\ (rot_sym self <> [] ->
      exists self' main_axis rot,
        _proc_cyclic Ideal.ext self = Ok (tt, self')
        /\ In (main_axis, rot) (rot_sym self)
        /\ (forall r, In r (rot_sym self) -> (snd r <= rot)%nat)
        /\ extends self self'
        /\ rot_sym self' = rot_sym self
        /\ In (sch_symbol self')
              [Some ("C" ++ str rot); Some ("C" ++ str rot ++ "h");
               Some ("C" ++ str rot ++ "v"); Some ("S" ++ str (2 * rot))]%string).
Proof.
  intros self. apply (cyclic_symbol Ideal.ext self).
Defined.

(** X19: [_proc_dihedral] raises the ValueError of [max] exactly when no
    rotation is recorded.  Otherwise it returns, records valid operations
    only and no rotation, and assigns Dn, Dnh or Dnd, where n is the highest
    order recorded. *)
Theorem dihedral_symbol ext self :
  (rot_sym self = [] ->
   _proc_dihedral ext self = Raise (ValueError "max() arg is an empty sequence"))
  /\ (rot_sym self <> [] ->
      exists self' main_axis rot,
        _proc_dihedral ext self = Ok (tt, self')
        /\ In (main_axis, rot) (rot_sym self)
        /\ (forall r, In r (rot_sym self) -> (snd r <= rot)%nat)
        /\ extends self self'
        /\ rot_sym self' = rot_sym self
        /\ In (sch_symbol self')
              [Some ("D" ++ str rot); Some ("D" ++ str rot ++ "h");
               Some ("D" ++ str rot ++ "d")]%string).
Proof.
  split.
  - intros Hnil. unfold _proc_dihedral, bind, max_rot_sym. rewrite Hnil. reflexivity.
  - intros Hne. destruct (_proc_dihedral_returns ext self Hne) as ([] & self' & H).
    destruct (_proc_dihedral_keeps ext self tt self' H) as (He & Hr & main_axis & rot & Hmax & Hs).
    destruct (max_by_in _ _ _ Hmax) as [Hin Hle].
    exists self', main_axis, rot.
    split; [exact H |]. split; [exact Hin |]. split; [exact Hle |].
    split; [exact He |]. split; [exact Hr | exact Hs].
Qed.

Lemma dihedral_symbol_witness :
  let self := append_rot_sym (0, 0, 1) 4 (analyzer_at square_xy (3 # 10) (1 # 2, 1 # 2, 1)) in
  (rot_sym self = [] ->
   _proc_dihedral Ideal.ext self = Raise (ValueError "max() arg is an empty sequence"))
  /\ (rot_sym self <> [] ->
      exists self' main_axis rot,
        _proc_dihedral Ideal.ext self = Ok (tt, self')
        /\ In (main_axis, rot) (rot_sym self)
        /\ (forall r, In r (rot_sym self) -> (snd r <= rot)%nat)
        /\ extends self self'
        /\ rot_sym self' = rot_sym self
        /\ In (sch_symbol self')
              [Some ("D" ++ str rot); Some ("D" ++ str rot ++ "h");
               Some ("D" ++ str rot ++ "d")]%string).
Proof.
  intros self. apply (dihedral_symbol Ideal.ext self).
Defined.

(** ** _find_spherical_axes: one axis for each order *)

Lemma once_refl rp self : once rp self rp self.
Proof.
  split; [auto |]. exists []. rewrite app_nil_r. repeat split; [constructor | |]; contradiction.
Qed.

Lemma once_trans rp1 s1 rp2 s2 rp3 s3 :
  once rp1 s1 rp2 s2 -> once rp2 s2 rp3 s3 -> once rp1 s1 rp3 s3.
Proof.
  intros (M1 & rs1 & E1 & N1 & F1) (M2 & rs2 & E2 & N2 & F2).
  split; [auto |]. exists (rs1 ++ rs2).
  split; [rewrite E2, E1, app_assoc; reflexivity |].
  rewrite map_app. split.
  - apply NoDup_app; [exact N1 | exact N2 |].
    intros r H1 H2. destruct (F1 r H1) as [_ T]. destruct (F2 r H2) as [F _]. congruence.
  - intros r Hr. apply in_app_or in Hr. destruct Hr as [Hr | Hr].
    + destruct (F1 r Hr). auto.
    + destruct (F2 r Hr) as [F T]. split; [| exact T].
      destruct (rp1 r) eqn:E; [| reflexivity]. rewrite (M1 r E) in F. discriminate.
Qed.

Lemma once_one rp self axis n op :
  rp n = false ->
  once rp self (set_present n true rp) (append_rot_sym axis n (append_symmop op self)).
Proof.
  intros Hn. split.
  - intros r Hr. unfold set_present. destruct (r =? n)%nat; [reflexivity | exact Hr].
  - exists [(axis, n)]. split; [reflexivity |]. split; [repeat constructor; intros [] |].
    intros r [<- | []]. split; [exact Hn |]. unfold set_present. cbn [snd].
    rewrite Nat.eqb_refl. reflexivity.
Qed.

Lemma once_cleared rp self n : rp n = false -> once rp self (set_present n false rp) self.
Proof.
  intros Hn. split.
  - intros r Hr. unfold set_present.
    destruct (Nat.eqb_spec r n) as [-> | _]; [congruence | exact Hr].
  - exists []. rewrite app_nil_r. repeat split; [constructor | |]; contradiction.
Qed.

Lemma try_r2_once ext test_axis rot_present self rp self' :
  rot_present 2%nat = false ->
  try_r2 ext test_axis rot_present self = Ok (rp, self') ->
  once rot_present self rp self'.
Proof.
  intros H2. unfold try_r2. intros H. steps H.
  destruct (Qgtb _ _); [| steps H; apply once_refl].
  cbv zeta in H. destruct (valid self _).
  - steps H. apply once_one. exact H2.
  - steps H. apply once_cleared. exact H2.
Qed.

Lemma try_orders_once ext test_axis orders rot_present self rp self' :
  try_orders ext test_axis orders rot_present self = Ok (rp, self') ->
  once rot_present self rp self'.
Proof.
  revert rot_present self. induction orders as [| r rest IH]; intros rot_present self H;
    simpl in H.
  - steps H. apply once_refl.
  - destruct (rot_present r) eqn:Hr; cbn [negb] in H; [apply IH in H; exact H |].
    steps H. cbv zeta in H. destruct (valid self _).
    + steps H. apply once_one. exact Hr.
    + apply IH in H. eapply once_trans; [apply once_cleared; exact Hr | exact H].
Qed.

Lemma spherical_loop_once ext triples rot_present self u self' :
  spherical_loop ext triples rot_present self = Ok (u, self') ->
  exists rp, once rot_present self rp self'.
Proof.
  revert rot_present self. induction triples as [| [[s1 s2] s3] rest IH];
    intros rot_present self H; cbn [spherical_loop] in H.
  - steps H. exists rot_present. apply once_refl.
  - apply bind_ok in H. destruct H as (rp1 & a & H1 & H).
    assert (R1 : once rot_present self rp1 a).
    { destruct (rot_present 2%nat) eqn:E2; cbn [negb] in H1.
      - steps H1. apply once_refl.
      - eapply try_r2_once; [exact E2 | exact H1]. }
    apply bind_ok in H. destruct H as (rp2 & b & H2 & H).
    assert (R2 : once rp1 a rp2 b).
    { destruct (rp1 2%nat) eqn:E2; cbn [negb] in H2.
      - steps H2. apply once_refl.
      - eapply try_r2_once; [exact E2 | exact H2]. }
    cbv zeta in H. steps H.
    apply bind_ok in H. destruct H as (rp3 & c & H3 & H).
    assert (R3 : once rp2 b rp3 c).
    { destruct (Qgtb _ _); [| steps H3; apply once_refl].
      eapply try_orders_once. exact H3. }
    assert (R : once rot_present self rp3 c).
    { eapply once_trans; [exact R1 |]. eapply once_trans; [exact R2 | exact R3]. }
    destruct (rp3 2%nat && rp3 2%nat && (rp3 4%nat || rp3 5%nat)).
    + steps H. exists rp3. exact R.
    + apply IH in H. destruct H as [rp H]. exists rp. eapply once_trans; [exact R | exact H].
Qed.

(** X20: when [_find_spherical_axes] returns, it has left the symbol as it
    was and recorded valid operations only, and the rotations it has
    recorded have orders between 2 and 5 that differ from one another: at
    most one axis for each order, four at most. *)
Theorem spherical_axes_recorded ext self u self' :
  _find_spherical_axes ext self = Ok (u, self') ->
  extends self self'
  /\ sch_symbol self' = sch_symbol self
  /\ exists rs,
       rot_sym self' = rot_sym self ++ rs
       /\ Forall (fun r => (2 <= snd r <= 5)%nat) rs
       /\ NoDup (map snd rs)
       /\ (List.length rs <= 4)%nat.
Proof.
  intros H.
  destruct (_find_spherical_axes_keeps ext self u self' H) as (He & Hs & rs & Hrs & Hall).
  split; [exact He |]. split; [exact Hs |]. exists rs. split; [exact Hrs |].
  split; [exact Hall |].
  unfold _find_spherical_axes in H. apply bind_ok in H. destruct H as (test_set & s1 & H1 & H).
  apply _get_smallest_sym_set_ok in H1. subst s1.
  apply spherical_loop_once in H. destruct H as (rp & _ & rs' & Hrs' & Hnd & _).
  rewrite Hrs in Hrs'. apply app_inv_head in Hrs'. subst rs'.
  split; [exact Hnd |].
  assert (Hincl : incl (map snd rs) (seq 2 4)).
  { intros r Hr. apply in_map_iff in Hr. destruct Hr as (x & <- & Hx).
    rewrite Forall_forall in Hall. specialize (Hall x Hx). unfold spherical_order in Hall.
    apply in_seq. lia. }
  pose proof (NoDup_incl_length Hnd Hincl) as Hlen.
  rewrite length_map, length_seq in Hlen. exact Hlen.
Qed.

Lemma spherical_axes_recorded_witness :
  extends octahedron_analyzer octahedron_axes
  /\ sch_symbol octahedron_axes = sch_symbol octahedron_analyzer
  /\ exists rs,
       rot_sym octahedron_axes = rot_sym octahedron_analyzer ++ rs
       /\ Forall (fun r => (2 <= snd r <= 5)%nat) rs
       /\ NoDup (map snd rs)
       /\ (List.length rs <= 4)%nat.
Proof.
  apply (spherical_axes_recorded Ideal.ext octahedron_analyzer tt octahedron_axes).
  vm_compute. reflexivity.
Defined.

(** ** _proc_sph_top: the symbols *)

Lemma by_inversion_symbol ext yes no self u self' :
  by_inversion ext yes no self = Ok (u, self') ->
  sch_symbol self' = Some (if valid self (inversion_op ext) then yes else no).
Proof.
  unfold by_inversion. intros H. steps H.
  destruct (valid self (inversion_op ext)); steps H; reflexivity.
Qed.

(** X21: when [_proc_sph_top] returns, from no rotation recorded, the highest
    order n that [_find_spherical_axes] has recorded is between 2 and 5, and
    decides the symbol: for 2 the outcome is that of [_proc_sym_top]; for 3
    the symbol is T when [_find_mirror] finds no mirror, and Th or Td with a
    mirror, as the inversion is valid or not; for 4 it is Oh or O, and for 5
    Ih or I, as the inversion is valid or not. *)
Theorem spherical_top_symbol ext self u self' :
  rot_sym self = [] ->
  _proc_sph_top ext self = Ok (u, self') ->
  exists s1 main_axis rot,
    _find_spherical_axes ext self = Ok (tt, s1)
    /\ In (main_axis, rot) (rot_sym s1)
    /\ (forall r, In r (rot_sym s1) -> (snd r <= rot)%nat)
    /\ (2 <= rot <= 5)%nat
    /\ (rot = 2%nat -> _proc_sym_top ext s1 = Ok (u, self'))
    /\ (rot = 3%nat ->
        exists mirror_type s3,
          _find_mirror ext main_axis s1 = Ok (mirror_type, s3)
          /\ sch_symbol self'
             = Some (if String.eqb mirror_type "" then "T"
                     else if is_valid_op (inversion_op ext) (processed_mol self) (tol self)
                          then "Th" else "Td")%string)
    /\ (rot = 4%nat ->
        sch_symbol self'
        = Some (if is_valid_op (inversion_op ext) (processed_mol self) (tol self)
                then "Oh" else "O")%string)
    /\ (rot = 5%nat ->
        sch_symbol self'
        = Some (if is_valid_op (inversion_op ext) (processed_mol self) (tol self)
                then "Ih" else "I")%string).
Proof.
  intros Hnil. unfold _proc_sph_top. intros H.
  apply bind_ok in H. destruct H as ([] & s1 & H1 & H).
  pose proof (_find_spherical_axes_keeps ext self tt s1 H1) as (E1 & _ & rs & Hrs & Hall).
  rewrite Hnil in Hrs. simpl in Hrs.
  apply bind_ok in H. destruct H as ([main_axis rot] & s2 & Hmax & H).
  apply max_rot_sym_ok in Hmax. destruct Hmax as [-> Hmax].
  apply max_by_in in Hmax. destruct Hmax as [Hin Hle].
  assert (Hrot : (2 <= rot <= 5)%nat).
  { rewrite Hrs in Hin. rewrite Forall_forall in Hall. exact (Hall _ Hin). }
  assert (Hinv : forall s, extends s1 s ->
            valid s (inversion_op ext)
            = is_valid_op (inversion_op ext) (processed_mol self) (tol self)).
  { intros s Es. destruct (extends_trans _ _ _ E1 Es) as [Hset _].
    rewrite (valid_same_setting _ _ _ Hset). reflexivity. }
  exists s1, main_axis, rot. split; [exact H1 |]. split; [exact Hin |].
  split; [exact Hle |]. split; [exact Hrot |].
  steps H.
  destruct ((List.length (rot_sym s1) =? 0)%nat || (rot <? 3)%nat) eqn:Hlow.
  { assert (rot = 2%nat).
    { apply orb_true_iff in Hlow. destruct Hlow as [Hlow | Hlow].
      - apply Nat.eqb_eq in Hlow. destruct (rot_sym s1); [contradiction | discriminate].
      - apply Nat.ltb_lt in Hlow. lia. }
    subst rot. repeat split; try (intros; discriminate). intros _. exact H. }
  apply orb_false_iff in Hlow. destruct Hlow as [_ Hlow]. apply Nat.ltb_ge in Hlow.
  destruct (Nat.eqb_spec rot 3) as [-> | H3].
  { repeat split; try (intros; discriminate || lia). intros _.
    apply bind_ok in H. destruct H as (mt & s3 & Hm & H).
    exists mt, s3. split; [exact Hm |].
    apply _find_mirror_keeps in Hm. destruct Hm as (Em & _).
    destruct (String.eqb mt ""); cbn [negb] in H.
    - steps H. reflexivity.
    - apply by_inversion_symbol in H. rewrite H, (Hinv s3 Em). reflexivity. }
  destruct (Nat.eqb_spec rot 4) as [-> | H4].
  { repeat split; try (intros; discriminate || lia). intros _.
    apply by_inversion_symbol in H. rewrite H, (Hinv s1 (extends_refl s1)). reflexivity. }
  destruct (Nat.eqb_spec rot 5) as [-> | H5].
  { repeat split; try (intros; discriminate || lia). intros _.
    apply by_inversion_symbol in H. rewrite H, (Hinv s1 (extends_refl s1)). reflexivity. }
  lia.
Qed.

Lemma spherical_top_symbol_witness :
  exists s1 main_axis rot,
    _find_spherical_axes Ideal.ext octahedron_analyzer = Ok (tt, s1)
    /\ In (main_axis, rot) (rot_sym s1)
    /\ (forall r, In r (rot_sym s1) -> (snd r <= rot)%nat)
    /\ (2 <= rot <= 5)%nat
    /\ (rot = 2%nat -> _proc_sym_top Ideal.ext s1 = Ok (tt, octahedron_top))
    /\ (rot = 3%nat ->
        exists mirror_type s3,
          _find_mirror Ideal.ext main_axis s1 = Ok (mirror_type, s3)
          /\ sch_symbol octahedron_top
             = Some (if String.eqb mirror_type "" then "T"
                     else if is_valid_op (inversion_op Ideal.ext)
                               (processed_mol octahedron_analyzer) (tol octahedron_analyzer)
                          then "Th" else "Td")%string)
    /\ (rot = 4%nat ->
        sch_symbol octahedron_top
        = Some (if is_valid_op (inversion_op Ideal.ext)
                     (processed_mol octahedron_analyzer) (tol octahedron_analyzer)
                then "Oh" else "O")%string)
    /\ (rot = 5%nat ->
        sch_symbol octahedron_top
        = Some (if is_valid_op (inversion_op Ideal.ext)
                     (processed_mol octahedron_analyzer) (tol octahedron_analyzer)
                then "Ih" else "I")%string).
Proof.
  apply (spherical_top_symbol Ideal.ext octahedron_analyzer tt octahedron_top).
  - reflexivity.
  - vm_compute. reflexivity.
Defined.

(** ** _proc_sym_top: the symbols *)

(** X22: when [_proc_sym_top] returns, from no rotation recorded, the order n
    that [_check_rot_sym] returned about the unique axis decides the family
    of the symbol.  When no candidate rotation passed, the full turn
    included, the symbol is C1, Ci or Cs.  Otherwise the axis is recorded
    with n, and the symbol is Dm, Dmh or Dmd, with m the larger of n and 2,
    when [_check_perpendicular_r2_axis] finds an axis, and Cn, Cnh, Cnv or
    S2n when it finds none (C1, C1h, C1v or S2 when n is 1). *)
Theorem symmetric_top_symbol ext self u self' :
  rot_sym self = [] ->
  _proc_sym_top ext self = Ok (u, self') ->
  exists ind n s1,
    unique_axis_index (eigvals self) (eig_tol self) = Some ind
    /\ _check_rot_sym ext (component (principal_axes self) ind) self = Ok (n, s1)
    /\ ((rot_sym s1 = []
         /\ In (sch_symbol self') [Some "C1"; Some "Ci"; Some "Cs"]%string)
        \/ (rot_sym s1 = [(component (principal_axes self) ind, n)]
            /\ exists found s2,
                 _check_perpendicular_r2_axis ext (component (principal_axes self) ind) s1
                 = Ok (found, s2)
                 /\ if found
                    then In (sch_symbol self')
                           [Some ("D" ++ str (Nat.max n 2));
                            Some ("D" ++ str (Nat.max n 2) ++ "h");
                            Some ("D" ++ str (Nat.max n 2) ++ "d")]%string
                    else In (sch_symbol self')
                           [Some ("C" ++ str n); Some ("C" ++ str n ++ "h");
                            Some ("C" ++ str n ++ "v"); Some ("S" ++ str (2 * n))]%string)).
Proof.
  intros Hnil. unfold _proc_sym_top. intros H. steps H.
  destruct (unique_axis_index (eigvals self) (eig_tol self)) as [ind |]; [| steps H].
  cbv zeta in H. set (unique_axis := component (principal_axes self) ind) in *.
  apply bind_ok in H. destruct H as (n & s1 & Hrot & H).
  exists ind, n, s1. split; [reflexivity |]. split; [exact Hrot |].
  apply _check_rot_sym_outcome in Hrot.
  destruct Hrot as (min_set & _ & _ & _ & _ & Hrec).
  steps H. apply bind_ok in H. destruct H as (u1 & s2 & Hperp & H). steps H.
  destruct Hrec as [(_ & _ & Hrs) | (_ & _ & ->)].
  - rewrite Hnil in Hrs. cbn [app] in Hrs. right. split; [exact Hrs |].
    rewrite Hrs in Hperp. cbn [List.length Nat.ltb Nat.leb] in Hperp.
    apply bind_ok in Hperp. destruct Hperp as (found & s3 & Hperp & Hret). steps Hret.
    exists found, s3. split; [exact Hperp |].
    apply _check_perpendicular_r2_axis_outcome in Hperp.
    destruct Hperp
      as (set & _ & [(-> & -> & _) | (-> & a & b & t & _ & _ & _ & _ & _ & _ & _ & _ & Hrs2)]).
    + rewrite Hrs in H. cbn [List.length Nat.leb Nat.eqb] in H.
      apply _proc_cyclic_keeps in H. destruct H as (_ & _ & main_axis & rot & Hmax & Hs).
      rewrite Hrs in Hmax. cbn in Hmax. inversion Hmax; subst. exact Hs.
    + rewrite Hrs in Hrs2. cbn [app] in Hrs2. rewrite Hrs2 in H.
      cbn [List.length Nat.leb] in H.
      apply _proc_dihedral_keeps in H. destruct H as (_ & _ & main_axis & rot & Hmax & Hs).
      rewrite Hrs2 in Hmax. cbn [max_by snd] in Hmax.
      destruct (n <? 2)%nat eqn:Hn; inversion Hmax; subst.
      * apply Nat.ltb_lt in Hn. replace (Nat.max n 2) with 2%nat by lia. exact Hs.
      * apply Nat.ltb_ge in Hn. replace (Nat.max rot 2) with rot by lia. exact Hs.
  - left. rewrite Hnil in *. split; [reflexivity |].
    cbn [List.length Nat.ltb Nat.leb] in Hperp. steps Hperp.
    rewrite Hnil in H. cbn [List.length Nat.leb Nat.eqb] in H.
    destruct (_proc_no_rot_sym_keeps ext self) as (u0 & s0 & Hrun & _ & _ & Hs).
    rewrite Hrun in H. inversion H; subst. exact Hs.
Qed.

(** The square in the xy plane: the order about the z axis is 4, an axis
    of order 2 is found across it, and the symbol is D4h. *)
Lemma symmetric_top_symbol_witness :
  let self := analyzer_at square_xy (3 # 10) (1 # 2, 1 # 2, 1) in
  exists ind n s1,
    unique_axis_index (eigvals self) (eig_tol self) = Some ind
    /\ _check_rot_sym Ideal.ext (component (principal_axes self) ind) self = Ok (n, s1)
    /\ ((rot_sym s1 = []
         /\ In (sch_symbol square_top) [Some "C1"; Some "Ci"; Some "Cs"]%string)
        \/ (rot_sym s1 = [(component (principal_axes self) ind, n)]
            /\ exists found s2,
                 _check_perpendicular_r2_axis Ideal.ext (component (principal_axes self) ind) s1
                 = Ok (found, s2)
                 /\ if found
                    then In (sch_symbol square_top)
                           [Some ("D" ++ str (Nat.max n 2));
                            Some ("D" ++ str (Nat.max n 2) ++ "h");
                            Some ("D" ++ str (Nat.max n 2) ++ "d")]%string
                    else In (sch_symbol square_top)
                           [Some ("C" ++ str n); Some ("C" ++ str n ++ "h");
                            Some ("C" ++ str n ++ "v"); Some ("S" ++ str (2 * n))]%string)).
Proof.
  intros self. apply (symmetric_top_symbol Ideal.ext self tt square_top).
  - reflexivity.
  - vm_compute. reflexivity.
Defined.

(** * Properties of pymatgen.entries.exp_entries *)

Lemma float_ltb_irrefl a : float_ltb a a = false.
Proof.
  destruct a as [x | | |]; simpl; trivial. apply Qltb_ge. apply Qle_refl.
Qed.

Lemma float_ltb_trans a b c :
  float_ltb a b = true -> float_ltb b c = true -> float_ltb a c = true.
Proof.
  destruct a as [x | | |], b as [y | | |], c as [z | | |]; simpl; try discriminate; trivial.
  rewrite !Qltb_lt. apply Qlt_trans.
Qed.

(** What is not below infinity, an infinity or a NaN, is below nothing. *)
Lemma float_ltb_not_below_inf a b : float_ltb a Inf = false -> float_ltb a b = false.
Proof. destruct a as [x | | |], b as [y | | |]; simpl; trivial; discriminate. Qed.

Lemma scan_data_scanned seen acc data :
  scanned seen acc -> scanned (seen ++ [data]) (scan_data acc data).
Proof.
  unfold scan_data, scanned, counts, solid_enthalpy.
  destruct acc as [[|] e]; cbn [snd].
  - intros (best & Hin & Hbest & -> & Hmin).
    apply andb_true_iff in Hbest. destruct Hbest as [Hsolid Hfinite].
    assert (Hold : exists data0,
               In data0 (seen ++ [data])
               /\ String.eqb (type data0) "fH"
                  && (negb (String.eqb (phaseinfo data0) "gas")
                      && negb (String.eqb (phaseinfo data0) "liquid"))
                  && float_ltb (value data0) Inf = true
               /\ value best = value data0
               /\ forall data', In data' seen ->
                     String.eqb (type data') "fH"
                     && (negb (String.eqb (phaseinfo data') "gas")
                         && negb (String.eqb (phaseinfo data') "liquid")) = true ->
                     float_ltb (value data') (value best) = false).
    { exists best. split; [apply in_or_app; left; exact Hin |].
      rewrite Hsolid, Hfinite. auto. }
    destruct Hold as (data0 & Hin0 & Hc0 & He0 & Hmin0).
    destruct (String.eqb (type data) "fH") eqn:Ht; cbn [andb].
    + destruct (float_ltb (value data) (value best)) eqn:Hlt; cbn [andb].
      * destruct (negb (String.eqb (phaseinfo data) "gas")
                  && negb (String.eqb (phaseinfo data) "liquid")) eqn:Hp.
        -- exists data. split; [apply in_or_app; right; left; reflexivity |].
           rewrite Ht, Hp. cbn [andb].
           split; [exact (float_ltb_trans _ _ _ Hlt Hfinite) |]. split; [reflexivity |].
           intros data' Hin' Hs'. apply in_app_or in Hin'. destruct Hin' as [Hin' | [<- | []]].
           ++ destruct (float_ltb (value data') (value data)) eqn:E; [| reflexivity].
              rewrite <- (Hmin0 data' Hin' Hs'). symmetry.
              exact (float_ltb_trans _ _ _ E Hlt).
           ++ apply float_ltb_irrefl.
        -- exists data0. split; [exact Hin0 |]. split; [exact Hc0 |]. split; [exact He0 |].
           intros data' Hin' Hs'. apply in_app_or in Hin'. destruct Hin' as [Hin' | [<- | []]].
           ++ auto.
           ++ rewrite Ht, Hp in Hs'. discriminate.
      * exists data0. split; [exact Hin0 |]. split; [exact Hc0 |]. split; [exact He0 |].
        intros data' Hin' Hs'. apply in_app_or in Hin'. destruct Hin' as [Hin' | [<- | []]].
        -- auto.
        -- exact Hlt.
    + exists data0. split; [exact Hin0 |]. split; [exact Hc0 |]. split; [exact He0 |].
      intros data' Hin' Hs'. apply in_app_or in Hin'. destruct Hin' as [Hin' | [<- | []]].
      * auto.
      * rewrite Ht in Hs'. discriminate.
  - intros [-> Hnone].
    destruct (String.eqb (type data) "fH") eqn:Ht; cbn [andb].
    + destruct (float_ltb (value data) Inf) eqn:Hlt; cbn [andb].
      * destruct (negb (String.eqb (phaseinfo data) "gas")
                  && negb (String.eqb (phaseinfo data) "liquid")) eqn:Hp.
        -- exists data. split; [apply in_or_app; right; left; reflexivity |].
           rewrite Ht, Hp, Hlt. split; [reflexivity |]. split; [reflexivity |].
           intros data' Hin' Hs'. apply in_app_or in Hin'. destruct Hin' as [Hin' | [<- | []]].
           ++ apply float_ltb_not_below_inf.
              pose proof (Hnone data' Hin') as Hc. rewrite Hs' in Hc. exact Hc.
           ++ apply float_ltb_irrefl.
        -- split; [reflexivity |].
           intros data' Hin'. apply in_app_or in Hin'. destruct Hin' as [Hin' | [<- | []]].
           ++ auto.
           ++ rewrite Ht, Hp. reflexivity.
      * split; [reflexivity |].
        intros data' Hin'. apply in_app_or in Hin'. destruct Hin' as [Hin' | [<- | []]].
        -- auto.
        -- rewrite Hlt. apply andb_false_r.
    + split; [reflexivity |].
      intros data' Hin'. apply in_app_or in Hin'. destruct Hin' as [Hin' | [<- | []]].
      * auto.
      * rewrite Ht. reflexivity.
Qed.

Lemma fold_scan_data_scanned thermodata :
  scanned thermodata (fold_left scan_data thermodata (false, Inf)).
Proof.
  induction thermodata as [| data seen IH] using rev_ind.
  - simpl. split; [reflexivity | intros data []].
  - rewrite fold_left_app. simpl. apply scan_data_scanned. exact IH.
Qed.

(** X15: given a composition that can be built, the constructor of
    [ExpEntry] raises exactly when the data hold no enthalpy of formation, of
    a phase that is neither gas nor liquid, whose value is below
    [float("inf")] (the empty list included; a value of infinity or a NaN
    does not count), and the error is then the ValueError of the source;
    with such a datum it returns. *)
Theorem exp_entry_raises_without_solid_enthalpy {Input Comp : Type}
  (Composition : Input -> result Comp) composition0 comp thermodata temperature0 :
  Composition composition0 = Ok comp ->
  ((forall data, In data thermodata -> counts data = false)
   <-> ExpEntry_init Composition composition0 thermodata temperature0
       = Raise (ValueError no_enthalpy))
  /\ ((exists data, In data thermodata /\ counts data = true)
      <-> exists entry,
            ExpEntry_init Composition composition0 thermodata temperature0 = Ok entry).
Proof.
  intros Hcomp. unfold ExpEntry_init. rewrite Hcomp.
  pose proof (fold_scan_data_scanned thermodata) as H.
  destruct (fold_left scan_data thermodata (false, Inf)) as [[|] e];
    cbn [scanned negb] in *.
  - destruct H as (best & Hin & Hbest & _). split; split.
    + intros Hnone. rewrite (Hnone _ Hin) in Hbest. discriminate.
    + discriminate.
    + intros _. eexists. reflexivity.
    + intros _. exists best. auto.
  - destruct H as [_ H]. split; split.
    + reflexivity.
    + intros _. exact H.
    + intros (data & Hin & Hs). rewrite (H _ Hin) in Hs. discriminate.
    + intros [entry Hentry]. discriminate.
Qed.

(** No datum of [thermodata_without_enthalpy] counts, the two solid phases of
    infinite and NaN value included. *)
Lemma exp_entry_raises_without_solid_enthalpy_witness :
  ((forall data, In data thermodata_without_enthalpy -> counts data = false)
   <-> ExpEntry_init formula_composition "Fe2O3"%string thermodata_without_enthalpy 298
       = Raise (ValueError no_enthalpy))
  /\ ((exists data, In data thermodata_without_enthalpy /\ counts data = true)
      <-> exists entry,
            ExpEntry_init formula_composition "Fe2O3"%string thermodata_without_enthalpy 298
            = Ok entry).
Proof.
  apply (exp_entry_raises_without_solid_enthalpy formula_composition
           "Fe2O3"%string "Fe2O3"%string).
  reflexivity.
Defined.

(** X16: when the constructor of [ExpEntry] returns, the energy of the entry
    is the value of an enthalpy of formation among the data, of a phase that
    is neither gas nor liquid; it is below [float("inf")] (it may be
    [float("-inf")]), and no enthalpy of formation of a phase that is
    neither gas nor liquid has a value below it.  The composition is the one
    built, and the data and the temperature are kept as given. *)
Theorem exp_entry_energy_is_least_solid_enthalpy {Input Comp : Type}
  (Composition : Input -> result Comp) composition0 thermodata temperature0 entry :
  ExpEntry_init Composition composition0 thermodata temperature0 = Ok entry ->
  Composition composition0 = Ok (composition entry)
  /\ _thermodata entry = thermodata
  /\ temperature entry = temperature0
  /\ float_ltb (energy entry) Inf = true
  /\ (exists data,
        In data thermodata /\ solid_enthalpy data = true /\ energy entry = value data)
  /\ forall data, In data thermodata -> solid_enthalpy data = true ->
                  float_ltb (value data) (energy entry) = false.
Proof.
  unfold ExpEntry_init.
  destruct (Composition composition0) as [comp | e]; [| discriminate].
  pose proof (fold_scan_data_scanned thermodata) as H.
  destruct (fold_left scan_data thermodata (false, Inf)) as [[|] e];
    cbn [scanned negb] in *; [| discriminate].
  intros Hentry. inversion Hentry; subst. cbn.
  destruct H as (best & Hin & Hbest & -> & Hmin).
  unfold counts in Hbest. apply andb_true_iff in Hbest. destruct Hbest as [Hsolid Hfinite].
  repeat split; trivial. exists best. auto.
Qed.

(** Of [thermodata_example] the energy is -110: the gas and the entropy are
    passed over, and so are the NaN and the infinite value. *)
Lemma exp_entry_energy_is_least_solid_enthalpy_witness :
  formula_composition "Fe2O3"%string = Ok "Fe2O3"%string
  /\ thermodata_example = thermodata_example
  /\ 298 = 298
  /\ float_ltb (Finite (-110)) Inf = true
  /\ (exists data,
        In data thermodata_example /\ solid_enthalpy data = true
        /\ Finite (-110) = value data)
  /\ forall data, In data thermodata_example -> solid_enthalpy data = true ->
                  float_ltb (value data) (Finite (-110)) = false.
Proof.
  apply (exp_entry_energy_is_least_solid_enthalpy formula_composition "Fe2O3"%string
           thermodata_example 298
           (mkExpEntry "Fe2O3"%string (Finite (-110)) thermodata_example 298)).
  reflexivity.
Defined.
